(** * exportenv: a shallow embedding of the .env parser and its merge pipeline

    Two programs of the repository are embedded:
    - [ExportEnv]  : cmd/exportenv/main.go, the multi-file version
                     (--env-file, --override, --no-expand, -v, trailing command);
    - [Simple]     : the single-file version (-f, --eval, --unset) with
                     [cleanValue] and [envLinePattern].

    Go strings are byte sequences and are modelled by [string]; a Go
    [map[string]string] is a [gmap string string].  The parts of the Go
    standard library the programs call ([strings], [regexp], [os.Expand],
    [sort.Strings]) are modelled in [GoStrings], [GoRegexp] and [GoOs]. *)

From Stdlib Require Import Ascii String NArith Permutation.
From stdpp Require Import base option list gmap strings fin_maps sorting.

(** ** Results of fallible Go code *)

(** The [error] values the programs can see: [os.Open] failed, the
    [bufio.Scanner] stopped with a non-nil [Err()], or the child process
    could not be run or exited with a non-zero status. *)
Inductive error : Type :=
| ErrOpen (path : string)
| ErrRead (path : string)
| ErrExec (argv : list string).

(** [Ok a] is a normal return with a nil error, [Fail e] a return with a
    non-nil error, [Panic] a run-time panic that unwinds the program. *)
Inductive outcome (A : Type) : Type :=
| Ok (a : A)
| Fail (e : error)
| Panic.

Arguments Ok {A} a.
Arguments Fail {A} e.
Arguments Panic {A}.

Definition bind {A B : Type} (x : outcome A) (f : A → outcome B) : outcome B :=
  match x with
  | Ok a => f a
  | Fail e => Fail e
  | Panic => Panic
  end.

Notation "x ← y ;;; z" := (bind y (λ x, z))
  (at level 20, y at level 100, z at level 200, right associativity).

(** What a file name denotes: [os.Open] fails, or the scanner yields
    [lines] (the successive [scanner.Text()] values) and then stops, with a
    non-nil [scanner.Err()] exactly when [readError] is set. *)
Inductive file : Type :=
| Unopenable
| Readable (lines : list string) (readError : bool).

Definition filesystem : Type := string → file.

(** One observable action of a run. [Print] is one [fmt.Printf]/[Println]
    call (text without its final newline), [LogError] one [slog.Error]
    record, [Exec] the child process with its arguments and the variables
    appended to the inherited environment, [Crash] the death of the
    process by an unrecovered panic. *)
Inductive event : Type :=
| Print (text : string)
| LogError (msg : string) (err : error)
| Exec (argv : list string) (extraEnv : list string)
| Crash.

(** A Go map from names to values. *)
Abbreviation EnvMap := (gmap string string).

(** [m[k]] read as a value: the zero value when [k] is absent. *)
Definition index (m : EnvMap) (k : string) : string :=
  match m !! k with
  | Some v => v
  | None => EmptyString
  end.

(** The order in which a [for k, v := range m] visits the entries of [m].
    Go leaves it unspecified: a run may see any arrangement of the
    entries, which is what [range_order] says of a candidate [range]. *)
Definition range_order (range : EnvMap → list (string * string)) : Prop :=
  ∀ m, range m ≡ₚ map_to_list m.

(** ** Go's [strings] package *)

Module GoStrings.

Definition code (c : ascii) : N := N_of_ascii c.

Definition isCode (n : N) (c : ascii) : bool := N.eqb (code c) n.

Definition dquote : ascii := ascii_of_nat 34.
Definition squote : ascii := ascii_of_nat 39.
Definition backtick : ascii := ascii_of_nat 96.
Definition backslash : ascii := ascii_of_nat 92.
Definition hash : ascii := ascii_of_nat 35.
Definition equals : ascii := ascii_of_nat 61.
Definition dollar : ascii := ascii_of_nat 36.
Definition newline : ascii := ascii_of_nat 10.
Definition nul : ascii := ascii_of_nat 0.

(** [string(c)] for a one-byte rune. *)
Definition str (c : ascii) : string := String c EmptyString.

Fixpoint str_drop (n : nat) (s : string) : string :=
  match n, s with
  | S k, String _ t => str_drop k t
  | _, _ => s
  end.

Fixpoint str_take (n : nat) (s : string) : string :=
  match n, s with
  | S k, String c t => String c (str_take k t)
  | _, _ => EmptyString
  end.

Fixpoint str_forall (p : ascii → bool) (s : string) : bool :=
  match s with
  | EmptyString => true
  | String c t => p c && str_forall p t
  end.

(** [s[lo:hi]]; Go panics unless [lo <= hi <= len(s)]. *)
Definition slice (s : string) (lo hi : nat) : option string :=
  if (lo <=? hi)%nat && (hi <=? String.length s)%nat
  then Some (str_take (hi - lo) (str_drop lo s))
  else None.

Definition HasPrefix (s p : string) : bool := String.prefix p s.

Definition HasSuffix (s p : string) : bool :=
  (String.length p <=? String.length s)%nat &&
  String.eqb (str_drop (String.length s - String.length p) s) p.

Definition TrimPrefix (s p : string) : string :=
  if HasPrefix s p then str_drop (String.length p) s else s.

Definition TrimSuffix (s p : string) : string :=
  if HasSuffix s p then str_take (String.length s - String.length p) s else s.

(** [strings.ReplaceAll s old new] for a non-empty [old] (the only use in
    the programs): non-overlapping occurrences, left to right. [skip] counts
    the bytes of an occurrence still to be passed over. *)
Fixpoint replaceFrom (old new : string) (skip : nat) (s : string) : string :=
  match s with
  | EmptyString => EmptyString
  | String c t =>
      match skip with
      | S k => replaceFrom old new k t
      | O =>
          if String.prefix old s
          then new +:+ replaceFrom old new (String.length old - 1) t
          else String c (replaceFrom old new O t)
      end
  end.

Definition ReplaceAll (s old new : string) : string := replaceFrom old new 0 s.

(** [strings.SplitN] with the separator [=] and the limit 2: at most two
    parts, cut at the first [=]. *)
Fixpoint SplitN2 (s : string) : list string :=
  match s with
  | EmptyString => [EmptyString]
  | String c t =>
      if isCode 61 c then [EmptyString; t]
      else match SplitN2 t with
           | a :: rest => String c a :: rest
           | [] => []
           end
  end.

(** *** [strings.TrimSpace]

    [TrimSpace] removes leading and trailing Unicode white space, decoding
    UTF-8 forwards from the start and backwards from the end. The white
    space runes are U+0009..U+000D, U+0020, U+0085, U+00A0, U+1680,
    U+2000..U+200A, U+2028, U+2029, U+202F, U+205F and U+3000; a rune is
    one of them exactly when the bytes are its (unique, shortest) encoding,
    so both directions are decided on the bytes. *)

Definition isAsciiSpace (c : ascii) : bool :=
  (N.leb 9 (code c) && N.leb (code c) 13) || isCode 32 c.

(** Two-byte encodings: U+0085 = C2 85, U+00A0 = C2 A0. *)
Definition isSpace2 (b1 b2 : ascii) : bool :=
  isCode 194 b1 && (isCode 133 b2 || isCode 160 b2).

(** Three-byte encodings: U+1680 = E1 9A 80, U+2000..U+200A = E2 80 80..8A,
    U+2028 = E2 80 A8, U+2029 = E2 80 A9, U+202F = E2 80 AF,
    U+205F = E2 81 9F, U+3000 = E3 80 80. *)
Definition isSpace3 (b1 b2 b3 : ascii) : bool :=
  (isCode 225 b1 && (isCode 154 b2 && isCode 128 b3)) ||
  (isCode 226 b1 &&
     ((isCode 128 b2 &&
        ((N.leb 128 (code b3) && N.leb (code b3) 138) ||
         isCode 168 b3 || isCode 169 b3 || isCode 175 b3)) ||
      (isCode 129 b2 && isCode 159 b3))) ||
  (isCode 227 b1 && (isCode 128 b2 && isCode 128 b3)).

(** Width in bytes of the white-space rune a byte sequence starts with,
    0 when it starts with none. *)
Definition spaceWidth (l : list ascii) : nat :=
  match l with
  | a :: t =>
      if isAsciiSpace a then 1
      else match t with
           | b :: t' =>
               if isSpace2 a b then 2
               else match t' with
                    | c :: _ => if isSpace3 a b c then 3 else 0
                    | [] => 0
                    end
           | [] => 0
           end
  | [] => 0
  end.

(** The same for the rune a byte sequence ends with, on the reversed
    sequence (last byte first). *)
Definition spaceWidthRev (l : list ascii) : nat :=
  match l with
  | a :: t =>
      if isAsciiSpace a then 1
      else match t with
           | b :: t' =>
               if isSpace2 b a then 2
               else match t' with
                    | c :: _ => if isSpace3 c b a then 3 else 0
                    | [] => 0
                    end
           | [] => 0
           end
  | [] => 0
  end.

(** Drops white-space runes from the front for as long as [width] finds
    one; [skip] counts the remaining bytes of the rune being dropped. *)
Fixpoint dropRunes (width : list ascii → nat) (skip : nat) (l : list ascii) : list ascii :=
  match l with
  | [] => []
  | _ :: t =>
      match skip with
      | S k => dropRunes width k t
      | O => match width l with
             | O => l
             | S k => dropRunes width k t
             end
      end
  end.

Definition trimLeft (l : list ascii) : list ascii := dropRunes spaceWidth 0 l.

Definition trimRight (l : list ascii) : list ascii :=
  reverse (dropRunes spaceWidthRev 0 (reverse l)).

Definition TrimSpace (s : string) : string :=
  string_of_list_ascii (trimRight (trimLeft (list_ascii_of_string s))).

(** *** [unicode/utf8]: the runes of a string

    [for _, r := range s] and [utf8.DecodeRuneInString] read one rune at
    a time. A byte below 128 is a rune of width 1. A first byte C2..DF
    starts a rune of width 2, E0..EF one of width 3, F0..F4 one of width
    4, when the bytes that follow are there and are accepted: the second
    byte in A0..BF after E0, in 80..9F after ED, in 90..BF after F0, in
    80..8F after F4 and in 80..BF after any other first byte, the third
    and the fourth byte in 80..BF. Anything else is not well formed: the
    decoder returns the rune U+FFFD with the width 1. *)

Definition inRange (lo hi : N) (c : ascii) : bool :=
  N.leb lo (code c) && N.leb (code c) hi.

Definition acceptsSecond (b0 b1 : ascii) : bool :=
  if isCode 224 b0 then inRange 160 191 b1
  else if isCode 237 b0 then inRange 128 159 b1
  else if isCode 240 b0 then inRange 144 191 b1
  else if isCode 244 b0 then inRange 128 143 b1
  else inRange 128 191 b1.

(** Width in bytes of the well-formed rune a string starts with; 0 when
    it starts with none (the decoder's U+FFFD of width 1). *)
Definition runeWidth (s : string) : nat :=
  match s with
  | String b0 t =>
      if N.ltb (code b0) 128 then 1
      else if inRange 194 223 b0 then
        match t with
        | String b1 _ => if acceptsSecond b0 b1 then 2 else 0
        | EmptyString => 0
        end
      else if inRange 224 239 b0 then
        match t with
        | String b1 (String b2 _) =>
            if acceptsSecond b0 b1 && inRange 128 191 b2 then 3 else 0
        | _ => 0
        end
      else if inRange 240 244 b0 then
        match t with
        | String b1 (String b2 (String b3 _)) =>
            if acceptsSecond b0 b1 && inRange 128 191 b2 && inRange 128 191 b3
            then 4 else 0
        | _ => 0
        end
      else 0
  | EmptyString => 0
  end.

(** [string(utf8.RuneError)], the encoding EF BF BD of U+FFFD: what
    [WriteRune] writes for a rune decoded from bytes that are not well
    formed. *)
Definition runeError : string :=
  String (ascii_of_nat 239) (String (ascii_of_nat 191) (str (ascii_of_nat 189))).

(** [utf8.ValidString]: the string is a sequence of well-formed runes.
    [pending] counts the bytes of the current rune still to be passed. *)
Fixpoint validFrom (pending : nat) (s : string) : bool :=
  match s with
  | EmptyString => Nat.eqb pending 0
  | String _ rest =>
      match pending with
      | S k => validFrom k rest
      | O => match runeWidth s with
             | O => false
             | S w => validFrom w rest
             end
      end
  end.

Definition ValidString (s : string) : bool := validFrom 0 s.

End GoStrings.

(** ** Go's [regexp] package, for the two patterns of the programs *)

Module GoRegexp.
Import GoStrings.

(** The fragment of the syntax the patterns use; repetition is only ever
    applied to a character class. The classes of both patterns treat every
    byte above 127 alike, so matching bytes agrees with matching runes. *)
Inductive regex : Type :=
| RBegin                            (* ^ *)
| REnd                              (* $ (end of text) *)
| RChar (p : ascii → bool)          (* one character of a class *)
| RStar (p : ascii → bool)          (* class*, greedy *)
| RStarLazy (p : ascii → bool)      (* class*?, lazy *)
| RSeq (r1 r2 : regex)
| ROpt (r : regex)                  (* (r)?, greedy *)
| RGroup (i : nat) (r : regex).     (* i-th capturing group *)

(** Capture [i] is the half-open byte range it matched. *)
Definition captures : Type := gmap nat (nat * nat).

Definition cont : Type := nat → string → captures → option captures.

(** Leftmost-first (backtracking) matching: a greedy star tries the
    longest repetition first, a lazy star the shortest; [k] is what must
    still match after the current node. *)
Fixpoint starGreedy (p : ascii → bool) (pos : nat) (s : string) (caps : captures)
    (k : cont) : option captures :=
  match s with
  | String c t =>
      if p c
      then match starGreedy p (S pos) t caps k with
           | Some r => Some r
           | None => k pos s caps
           end
      else k pos s caps
  | EmptyString => k pos s caps
  end.

Fixpoint starLazy (p : ascii → bool) (pos : nat) (s : string) (caps : captures)
    (k : cont) : option captures :=
  match k pos s caps with
  | Some r => Some r
  | None =>
      match s with
      | String c t => if p c then starLazy p (S pos) t caps k else None
      | EmptyString => None
      end
  end.

Fixpoint rmatch (r : regex) (pos : nat) (s : string) (caps : captures)
    (k : cont) : option captures :=
  match r with
  | RBegin => if (pos =? 0)%nat then k pos s caps else None
  | REnd => match s with EmptyString => k pos s caps | String _ _ => None end
  | RChar p =>
      match s with
      | String c t => if p c then k (S pos) t caps else None
      | EmptyString => None
      end
  | RStar p => starGreedy p pos s caps k
  | RStarLazy p => starLazy p pos s caps k
  | RSeq r1 r2 => rmatch r1 pos s caps (λ pos' s' caps', rmatch r2 pos' s' caps' k)
  | ROpt r' =>
      match rmatch r' pos s caps k with
      | Some res => Some res
      | None => k pos s caps
      end
  | RGroup i r' =>
      rmatch r' pos s caps (λ pos' s' caps', k pos' s' (<[i := (pos, pos')]> caps'))
  end.

(** The match starting at byte offset [pos] of the text, if any. *)
Definition matchAt (r : regex) (pos : nat) (s : string) : option captures :=
  rmatch r pos s ∅ (λ pos' _ caps, Some (<[0 := (pos, pos')]> caps)).

(** The leftmost match: offsets [pos], [pos+1], ... are tried in turn. *)
Fixpoint search (r : regex) (pos : nat) (s : string) : option captures :=
  match matchAt r pos s with
  | Some caps => Some caps
  | None =>
      match s with
      | String _ t => search r (S pos) t
      | EmptyString => None
      end
  end.

Definition group (s : string) (caps : captures) (i : nat) : string :=
  match caps !! i with
  | Some (lo, hi) => str_take (hi - lo) (str_drop lo s)
  | None => EmptyString
  end.

(** [re.FindStringSubmatch(s)] for a pattern with [n] groups: [None] is
    the nil slice, otherwise element [i] is the text of group [i] (empty
    for a group that took no part in the match). *)
Definition FindStringSubmatch (r : regex) (n : nat) (s : string) : option (list string) :=
  match search r 0 s with
  | Some caps => Some (map (group s caps) (seq 0 (S n)))
  | None => None
  end.

(** Character classes. [\s] is [\t\n\f\r ]; [.] is anything but a newline. *)
Definition cls_space (c : ascii) : bool :=
  isCode 9 c || isCode 10 c || isCode 12 c || isCode 13 c || isCode 32 c.

Definition cls_dot (c : ascii) : bool := negb (isCode 10 c).

Definition cls_upper (c : ascii) : bool := N.leb 65 (code c) && N.leb (code c) 90.
Definition cls_lower (c : ascii) : bool := N.leb 97 (code c) && N.leb (code c) 122.
Definition cls_digit (c : ascii) : bool := N.leb 48 (code c) && N.leb (code c) 57.

(** [[A-Za-z_]] and [[A-Za-z0-9_]] *)
Definition cls_nameStart (c : ascii) : bool := cls_upper c || cls_lower c || isCode 95 c.
Definition cls_name (c : ascii) : bool := cls_nameStart c || cls_digit c.

(** [[^#=]] *)
Definition cls_notHashEq (c : ascii) : bool := negb (isCode 35 c || isCode 61 c).

Definition cls_is (n : N) (c : ascii) : bool := isCode n c.

Fixpoint seqs (rs : list regex) : regex :=
  match rs with
  | [] => RStar (λ _, false)
  | [r] => r
  | r :: rest => RSeq r (seqs rest)
  end.

End GoRegexp.

(** ** Go's [os.Expand] *)

Module GoOs.
Import GoStrings.

Definition isShellSpecialVar (c : ascii) : bool :=
  isCode 42 c || isCode 35 c || isCode 36 c || isCode 64 c || isCode 33 c ||
  isCode 63 c || isCode 45 c || (N.leb 48 (code c) && N.leb (code c) 57).

Definition isAlphaNum (c : ascii) : bool :=
  isCode 95 c || (N.leb 48 (code c) && N.leb (code c) 57) ||
  (N.leb 97 (code c) && N.leb (code c) 122) ||
  (N.leb 65 (code c) && N.leb (code c) 90).

(** Index of the first [}] of [s], counted from [i]. *)
Fixpoint findBrace (s : string) (i : nat) : option nat :=
  match s with
  | EmptyString => None
  | String c t => if isCode 125 c then Some i else findBrace t (S i)
  end.

Fixpoint alnumLen (s : string) : nat :=
  match s with
  | String c t => if isAlphaNum c then S (alnumLen t) else 0
  | EmptyString => 0
  end.

(** [getShellName s] for a non-empty [s]: the name and the bytes consumed. *)
Definition getShellName (s : string) : string * nat :=
  match s with
  | EmptyString => (EmptyString, 0)
  | String c0 t =>
      if isCode 123 c0 then
        match t with
        | String c1 (String c2 _) =>
            if isShellSpecialVar c1 && isCode 125 c2 then (str c1, 3)
            else match findBrace t 1 with
                 | Some i => if (i =? 1)%nat then (EmptyString, 2)
                             else (str_take (i - 1) t, S i)
                 | None => (EmptyString, 1)
                 end
        | _ =>
            match findBrace t 1 with
            | Some i => if (i =? 1)%nat then (EmptyString, 2)
                        else (str_take (i - 1) t, S i)
            | None => (EmptyString, 1)
            end
        end
      else if isShellSpecialVar c0 then (str c0, 1)
      else (str_take (alnumLen s) s, alnumLen s)
  end.

(** The loop of [os.Expand]: [skip] is the [j += w] of the source, the
    bytes of a reference that the loop steps over. A [$] that is the last
    byte is copied like any other byte. *)
Fixpoint expandFrom (mapping : string → string) (skip : nat) (s : string) : string :=
  match s with
  | EmptyString => EmptyString
  | String c t =>
      match skip with
      | S k => expandFrom mapping k t
      | O =>
          if isCode 36 c && negb (String.eqb t EmptyString) then
            let '(name, w) := getShellName t in
            (if String.eqb name EmptyString
             then (if (0 <? w)%nat then EmptyString else str c)
             else mapping name) +:+ expandFrom mapping w t
          else String c (expandFrom mapping O t)
      end
  end.

Definition Expand (s : string) (mapping : string → string) : string :=
  expandFrom mapping 0 s.

End GoOs.

(** ** cmd/exportenv/main.go *)

Module ExportEnv.
Import GoStrings GoRegexp GoOs.

Record Args : Type := {
  EnvFiles : list string;
  NoExpand : bool;
  Override : bool;
  Vars : list string;
  Cmd : list string
}.

(** The pattern of [parseLine]: start of text, white space, group 1 =
    a character of [A-Za-z_] then any number of [A-Za-z0-9_], white space,
    an equals sign, white space, group 2 = any characters (greedy), end of
    text. *)
Definition keyValueLine : regex :=
  seqs [RBegin; RStar cls_space;
        RGroup 1 (RSeq (RChar cls_nameStart) (RStar cls_name));
        RStar cls_space; RChar (cls_is 61); RStar cls_space;
        RGroup 2 (RStar cls_dot); REnd].

Definition existsInMap (m : EnvMap) (key : string) : bool :=
  match m !! key with
  | Some _ => true
  | None => false
  end.

Definition isCommentOrEmpty (line : string) : bool :=
  String.eqb line EmptyString || HasPrefix line (str hash).

(** The loop of [removeInlineComment]: [for _, char := range val] with
    [result.WriteRune(char)]. The loop decodes one rune at a time.
    [pending] counts the bytes of the current rune that follow its first
    byte: the rune was tested and written as a whole when its first byte
    was met, so these bytes are only copied. A rune of width 1 is the byte
    [char], and the tests of the source are made on it. A well-formed rune
    of more bytes is 128 or more, so it is none of the two quotes and not
    [#], nor [quoteChar], which is 0 or one of the two quotes: it is
    written back, which gives its bytes again. Bytes that are not well
    formed are decoded one at a time as U+FFFD, for which every test fails
    as well, and [WriteRune] writes [runeError] for each. *)
Fixpoint removeInlineCommentLoop (val : string) (pending : nat) (inQuote : bool)
    (quoteChar : ascii) : string :=
  match val with
  | EmptyString => EmptyString
  | String char rest =>
      match pending with
      | S k => String char (removeInlineCommentLoop rest k inQuote quoteChar)
      | O =>
          match runeWidth val with
          | O => runeError +:+ removeInlineCommentLoop rest 0 inQuote quoteChar
          | 1 =>
              if (Ascii.eqb char dquote || Ascii.eqb char squote) && negb inQuote
              then String char (removeInlineCommentLoop rest 0 true char)
              else if Ascii.eqb char quoteChar && inQuote
              then String char (removeInlineCommentLoop rest 0 false quoteChar)
              else if Ascii.eqb char hash && negb inQuote
              then EmptyString
              else String char (removeInlineCommentLoop rest 0 inQuote quoteChar)
          | S w => String char (removeInlineCommentLoop rest w inQuote quoteChar)
          end
      end
  end.

Definition removeInlineComment (val : string) : string :=
  TrimSpace (removeInlineCommentLoop val 0 false nul).

(** [parseLine] returns the key, the value, whether a multiline value
    starts, and the quote rune ([nul] is the rune 0). *)
Definition parseLine (line : string) : string * string * bool * ascii :=
  match FindStringSubmatch keyValueLine 2 line with
  | Some [_; key; val] =>
      let val := removeInlineComment val in
      if HasPrefix val (str dquote) || HasPrefix val (str squote) then
        match val with
        | String quoteType _ =>
            let val := TrimPrefix val (str quoteType) in
            if HasSuffix val (str quoteType)
            then (key, TrimSuffix val (str quoteType), false, nul)
            else (key, val, true, quoteType)
        | EmptyString => (key, val, false, nul)
        end
      else (key, val, false, nul)
  | _ => (EmptyString, EmptyString, false, nul)
  end.

Definition expandVariables (val : string) (envVars : EnvMap) : string :=
  Expand val (λ varName,
    match envVars !! varName with
    | Some v => v
    | None => EmptyString
    end).

(** The local variables of [parseEnvFile] that live across lines. *)
Record ParseState : Type := {
  key : string;
  value : string;
  multiline : bool;
  quoteType : ascii;
  envVars : EnvMap
}.

Definition initState : ParseState :=
  {| key := EmptyString; value := EmptyString; multiline := false;
     quoteType := nul; envVars := ∅ |}.

(** One iteration of the scanner loop of [parseEnvFile], on the text
    [scanner.Text()] returned. *)
Definition parseStep (st : ParseState) (text : string) : ParseState :=
  let line := TrimSpace text in
  if isCommentOrEmpty line then st
  else if multiline st then
    if HasSuffix line (str (quoteType st)) then
      let value' := removeInlineComment
        (value st +:+ str newline +:+ TrimSuffix line (str (quoteType st))) in
      {| key := key st; value := value'; multiline := false;
         quoteType := quoteType st;
         envVars := <[key st := value']> (envVars st) |}
    else
      {| key := key st; value := value st +:+ str newline +:+ line;
         multiline := true; quoteType := quoteType st; envVars := envVars st |}
  else
    let '(key', val, multiline', quoteType') := parseLine line in
    if multiline' then
      {| key := key'; value := val; multiline := true;
         quoteType := quoteType'; envVars := envVars st |}
    else
      let val' :=
        if Ascii.eqb quoteType' dquote
        then ReplaceAll (expandVariables val (envVars st))
               (String backslash "n") (str newline)
        else val in
      {| key := key'; value := value st; multiline := false;
         quoteType := quoteType'; envVars := <[key' := val']> (envVars st) |}.

Definition parseLines (lines : list string) : EnvMap :=
  envVars (foldl parseStep initState lines).

Definition parseEnvFile (fs : filesystem) (filePath : string) : outcome EnvMap :=
  match fs filePath with
  | Unopenable => Fail (ErrOpen filePath)
  | Readable lines readError =>
      if readError then Fail (ErrRead filePath) else Ok (parseLines lines)
  end.

Definition parseCommandLineVars (vars : list string) : EnvMap :=
  foldl (λ cmdVars v,
           match SplitN2 v with
           | [k; x] => <[k := x]> cmdVars
           | [k] => <[k := EmptyString]> cmdVars
           | _ => cmdVars
           end) ∅ vars.

Section Range.
Variable range : EnvMap → list (string * string).

(** The inner loop of [loadEnvFiles] over one file's variables. *)
Definition mergeFileVars (override : bool) (envVars : EnvMap) (fileVars : EnvMap)
    : EnvMap :=
  foldl (λ acc kv,
           if override || negb (existsInMap acc kv.1)
           then <[kv.1 := kv.2]> acc else acc)
        envVars (range fileVars).

Fixpoint loadLoop (fs : filesystem) (override : bool) (files : list string)
    (envVars : EnvMap) : outcome EnvMap :=
  match files with
  | [] => Ok envVars
  | file :: rest =>
      fileVars ← parseEnvFile fs file ;;;
      loadLoop fs override rest (mergeFileVars override envVars fileVars)
  end.

Definition defaultFiles (files : list string) : list string :=
  match files with
  | [] => [".env"]
  | _ => files
  end.

Definition loadEnvFiles (fs : filesystem) (files : list string) (override : bool)
    : outcome EnvMap :=
  loadLoop fs override (defaultFiles files) ∅.

Definition mergeEnvVars (envVars cmdVars : EnvMap) : EnvMap :=
  foldl (λ acc kv, <[kv.1 := kv.2]> acc) envVars (range cmdVars).

(** [expandEnvVars] visiting the keys in the order [order]: each value is
    expanded against the map as the earlier iterations left it. *)
Definition expandEnvVarsIn (order : list string) (envVars : EnvMap) : EnvMap :=
  foldl (λ m key,
           match m !! key with
           | Some value => <[key := Expand value (index m)]> m
           | None => m
           end) envVars order.

Definition expandEnvVars (envVars : EnvMap) : EnvMap :=
  expandEnvVarsIn (range envVars).*1 envVars.

Definition sortEnvVars (envVars : EnvMap) : list string :=
  let keys := merge_sort String.le (range envVars).*1 in
  map (λ k, k +:+ "=" +:+ index envVars k) keys.

Definition printExportableEnvVars (sortedEnvVars : list string) : list event :=
  map (λ v,
         let parts := SplitN2 v in
         let key := match parts with k :: _ => k | [] => EmptyString end in
         let value := match parts with _ :: x :: _ => x | _ => EmptyString end in
         let quotedValue :=
           str dquote +:+ ReplaceAll value (str dquote) (String backslash (str dquote))
           +:+ str dquote in
         Print ("export " +:+ key +:+ "=" +:+ quotedValue))
      sortedEnvVars.

(** [cmdFails argv env] tells whether [cmd.Run()] returns an error. *)
Definition handleExecution (cmdFails : list string → list string → bool)
    (cmdArgs envVars : list string) : list event :=
  Exec cmdArgs envVars ::
  (if cmdFails cmdArgs envVars
   then [LogError "Error executing command" (ErrExec cmdArgs)] else []).

Definition main (fs : filesystem) (cmdFails : list string → list string → bool)
    (args : Args) : list event :=
  match loadEnvFiles fs (EnvFiles args) (Override args) with
  | Fail err => [LogError "Error loading env files" err]
  | Panic => [Crash]
  | Ok envVars =>
      let cmdVars := parseCommandLineVars (Vars args) in
      let envVars := mergeEnvVars envVars cmdVars in
      let envVars := if NoExpand args then envVars else expandEnvVars envVars in
      let sortedEnvVars := sortEnvVars envVars in
      match Cmd args with
      | [] => printExportableEnvVars sortedEnvVars
      | _ => handleExecution cmdFails (Cmd args) sortedEnvVars
      end
  end.

End Range.

End ExportEnv.

(** ** The single-file program *)

Module Simple.
Import GoStrings GoRegexp.

Record Args : Type := {
  File : string;
  Eval : bool;
  Unset : bool
}.

(** [envLinePattern]: start of text, white space, group 1 = one or more
    characters other than [#] and [=], white space, an equals sign, white
    space, group 2 = any characters (lazy), optionally group 3 = white
    space, [#] and any characters, then end of text. *)
Definition envLinePattern : regex :=
  seqs [RBegin; RStar cls_space;
        RGroup 1 (RSeq (RChar cls_notHashEq) (RStar cls_notHashEq));
        RStar cls_space; RChar (cls_is 61); RStar cls_space;
        RGroup 2 (RStarLazy cls_dot);
        ROpt (RGroup 3 (seqs [RStar cls_space; RChar (cls_is 35); RStar cls_dot]));
        REnd].

Definition first (s : string) : ascii :=
  match s with
  | String c _ => c
  | EmptyString => nul
  end.

Fixpoint last (s : string) : ascii :=
  match s with
  | EmptyString => nul
  | String c EmptyString => c
  | String _ t => last t
  end.

(** [cleanValue]; [None] is the run-time panic of an out-of-range slice
    expression. [value[0]] and [value[len(value)-1]] are read only when
    the length is not 0. *)
Definition cleanValue (value : string) : option string :=
  let value := TrimSpace value in
  if (String.length value =? 0)%nat then Some value
  else
    value' ←
      (if (Ascii.eqb (first value) dquote && Ascii.eqb (last value) dquote) ||
          (Ascii.eqb (first value) squote && Ascii.eqb (last value) squote) ||
          (Ascii.eqb (first value) backtick && Ascii.eqb (last value) backtick)
       then slice value 1 (String.length value - 1)
       else Some value);
    let value := TrimSpace value' in
    let value := ReplaceAll value (String backslash (str dquote)) (str dquote) in
    let value := ReplaceAll value (String backslash (str squote)) (str squote) in
    let value := ReplaceAll value (String backslash (str backtick)) (str backtick) in
    Some value.

(** One iteration of the scanner loop of [parseEnvFile]. *)
Definition parseStep (envVars : EnvMap) (text : string) : option EnvMap :=
  let line := TrimSpace text in
  if String.eqb line EmptyString || HasPrefix line (str hash) then Some envVars
  else
    match FindStringSubmatch envLinePattern 3 line with
    | Some (_ :: m1 :: m2 :: _) =>
        let key := TrimSpace m1 in
        value ← cleanValue (TrimSpace m2);
        Some (<[key := value]> envVars)
    | _ => Some envVars
    end.

Fixpoint parseLines (envVars : EnvMap) (lines : list string) : option EnvMap :=
  match lines with
  | [] => Some envVars
  | text :: rest =>
      envVars' ← parseStep envVars text;
      parseLines envVars' rest
  end.

Definition parseEnvFile (fs : filesystem) (filePath : string) : outcome EnvMap :=
  match fs filePath with
  | Unopenable => Fail (ErrOpen filePath)
  | Readable lines readError =>
      match parseLines ∅ lines with
      | None => Panic
      | Some envVars => if readError then Fail (ErrRead filePath) else Ok envVars
      end
  end.

Section Range.
Variable range : EnvMap → list (string * string).

Definition displayEnvVars (envVars : EnvMap) : list event :=
  Print "Evaluated environment variables:" ::
  map (λ kv, Print (kv.1 +:+ "=" +:+ kv.2)) (range envVars).

Definition unsetEnvVars (envVars : EnvMap) : list event :=
  map (λ kv, Print ("unset " +:+ kv.1)) (range envVars).

Definition exportEnvVars (envVars : EnvMap) : list event :=
  map (λ kv, Print ("export " +:+ kv.1 +:+ "=" +:+ kv.2)) (range envVars).

Definition main (fs : filesystem) (args : Args) : list event :=
  let filePath := if String.eqb (File args) EmptyString then ".env" else File args in
  match parseEnvFile fs filePath with
  | Fail err => [LogError "Error parsing env file" err]
  | Panic => [Crash]
  | Ok envVars =>
      if Eval args then displayEnvVars envVars
      else if Unset args then unsetEnvVars envVars
      else exportEnvVars envVars
  end.

End Range.

End Simple.

(** ** Classes of lines *)

Module Lines.
Import GoStrings GoRegexp.

(** A key of the grammar: one character of [A-Za-z_] followed by any
    number of [A-Za-z0-9_], the class of group 1 of [keyValueLine]. *)
Definition isName (s : string) : bool :=
  match s with
  | String c t => cls_nameStart c && str_forall cls_name t
  | EmptyString => false
  end.

(** A character of an unquoted, unescaped, uncommented value on one line:
    no quote of the three kinds, no backslash, no [#], no newline. *)
Definition isPlainChar (c : ascii) : bool :=
  negb (Ascii.eqb c dquote || Ascii.eqb c squote || Ascii.eqb c backtick ||
        Ascii.eqb c backslash || Ascii.eqb c hash || Ascii.eqb c newline).

End Lines.

(** ** Inputs for the examples *)

Module Fixtures.
Import GoStrings.

(** A file system given by a table; any other path cannot be opened. *)
Fixpoint fs_of (table : list (string * file)) (path : string) : file :=
  match table with
  | [] => Unopenable
  | (p, f) :: rest => if String.eqb p path then f else fs_of rest path
  end.

(** Two iteration orders a run may see. *)
Definition forwardRange (m : EnvMap) : list (string * string) := map_to_list m.
Definition backwardRange (m : EnvMap) : list (string * string) := reverse (map_to_list m).

Definition noArgs : ExportEnv.Args :=
  {| ExportEnv.EnvFiles := []; ExportEnv.NoExpand := false;
     ExportEnv.Override := false; ExportEnv.Vars := []; ExportEnv.Cmd := [] |}.

(** Three lines of a file. [escapedQuoteLine] is the key [KEY] with the
    double-quoted value a, backslash, double quote, b. [quotedRefLine] is
    the key [B] with the double-quoted value dollar, [{A}], [bar],
    backslash, n. [loneQuoteLine] is the key [KEY] with a value that is
    one double quote. *)
Definition escapedQuoteLine : string :=
  "KEY=" +:+ str dquote +:+ "a\" +:+ str dquote +:+ "b" +:+ str dquote.
Definition quotedRefLine : string :=
  "B=" +:+ str dquote +:+ "${A}bar\n" +:+ str dquote.
Definition loneQuoteLine : string := "KEY=" +:+ str dquote.

(** [A=${B}], [B=${C}], [C=x] after the merge. *)
Definition chained : EnvMap :=
  <["A" := "${B}"]> (<["B" := "${C}"]> (<["C" := "x"]> ∅)).

(** [F1] defines [A=1], [F2] defines [A=2]. *)
Definition twoFiles : filesystem :=
  fs_of [("F1", Readable ["A=1"] false); ("F2", Readable ["A=2"] false)].

(** A readable file and no other. *)
Definition oneFile : filesystem :=
  fs_of [("ok.env", Readable ["A=1"] false)].

Definition dotEnv (lines : list string) : filesystem :=
  fs_of [(".env", Readable lines false)].

Definition unsetArgs : Simple.Args :=
  {| Simple.File := EmptyString; Simple.Eval := false; Simple.Unset := true |}.
Definition evalArgs : Simple.Args :=
  {| Simple.File := EmptyString; Simple.Eval := true; Simple.Unset := false |}.
Definition exportArgs : Simple.Args :=
  {| Simple.File := EmptyString; Simple.Eval := false; Simple.Unset := false |}.

End Fixtures.

(** * Properties *)

Import GoStrings GoRegexp GoOs.

(** ** Iterating over a map *)

Section MapLoops.
Context (range : EnvMap → list (string * string)) (Hrange : range_order range).

Lemma range_to_map (m : EnvMap) : list_to_map (range m) = m.
Proof.
  rewrite <- (list_to_map_to_list m) at 2.
  symmetry. apply list_to_map_proper.
  - apply NoDup_fst_map_to_list.
  - symmetry. apply Hrange.
Qed.

Lemma range_reverse_to_map (m : EnvMap) : list_to_map (reverse (range m)) = m.
Proof.
  rewrite <- (list_to_map_to_list m) at 2.
  symmetry. apply list_to_map_proper.
  - apply NoDup_fst_map_to_list.
  - rewrite reverse_Permutation. symmetry. apply Hrange.
Qed.

Lemma foldl_insert_union (l : list (string * string)) (e : EnvMap) :
  foldl (λ acc kv, <[kv.1 := kv.2]> acc) e l = list_to_map (reverse l) ∪ e.
Proof.
  revert e. induction l as [|[k v] l IH]; intros e; simpl.
  - by rewrite (left_id_L ∅ (∪)).
  - rewrite IH, reverse_cons, list_to_map_app. simpl.
    rewrite <- (assoc_L (∪)). f_equal.
    rewrite insert_empty. by rewrite <- insert_union_singleton_l.
Qed.

Lemma foldl_insert_absent_union (l : list (string * string)) (e : EnvMap) :
  foldl (λ acc kv,
           if false || negb (ExportEnv.existsInMap acc kv.1)
           then <[kv.1 := kv.2]> acc else acc) e l
  = e ∪ list_to_map l.
Proof.
  revert e. induction l as [|[k v] l IH]; intros e; simpl.
  - by rewrite (right_id_L ∅ (∪)).
  - rewrite IH. unfold ExportEnv.existsInMap. apply map_eq. intros j.
    destruct (e !! k) as [x|] eqn:Hk; simpl.
    + rewrite !lookup_union. destruct (decide (k = j)) as [->|Hne].
      * rewrite Hk, lookup_insert_eq. by destruct (list_to_map l !! j).
      * by rewrite lookup_insert_ne.
    + rewrite !lookup_union. destruct (decide (k = j)) as [->|Hne].
      * rewrite Hk, !lookup_insert_eq. by destruct (list_to_map l !! j).
      * by rewrite !lookup_insert_ne.
Qed.

Lemma mergeFileVars_keep (e f : EnvMap) :
  ExportEnv.mergeFileVars range false e f = e ∪ f.
Proof.
  unfold ExportEnv.mergeFileVars. by rewrite foldl_insert_absent_union, range_to_map.
Qed.

Lemma mergeFileVars_override (e f : EnvMap) :
  ExportEnv.mergeFileVars range true e f = f ∪ e.
Proof.
  unfold ExportEnv.mergeFileVars. simpl.
  by rewrite foldl_insert_union, range_reverse_to_map.
Qed.

Lemma mergeEnvVars_union (e c : EnvMap) :
  ExportEnv.mergeEnvVars range e c = c ∪ e.
Proof.
  unfold ExportEnv.mergeEnvVars. by rewrite foldl_insert_union, range_reverse_to_map.
Qed.

End MapLoops.

(** ** The multi-file merge *)

(** What [loadLoop] computes once every file has been parsed. *)
Local Abbreviation mergeAll override e ms :=
  (foldl (λ (acc f : EnvMap), if override then f ∪ acc else acc ∪ f) e ms).

Section Load.
Context (range : EnvMap → list (string * string)) (Hrange : range_order range).

Lemma loadLoop_parsed fs override files ms e :
  Forall2 (λ f m, ExportEnv.parseEnvFile fs f = Ok m) files ms →
  ExportEnv.loadLoop range fs override files e = Ok (mergeAll override e ms).
Proof.
  intros HF. revert e. induction HF as [|f m files ms Hf _ IH]; intros e; simpl.
  - done.
  - rewrite Hf. simpl. rewrite IH. f_equal. f_equal.
    destruct override.
    + by apply mergeFileVars_override.
    + by apply mergeFileVars_keep.
Qed.

Lemma loadLoop_unreadable fs override files e f :
  f ∈ files →
  (fs f = Unopenable ∨ ∃ lines, fs f = Readable lines true) →
  ∃ err, ExportEnv.loadLoop range fs override files e = Fail err.
Proof.
  intros Hin Hbad. revert e.
  induction files as [|g files IH]; intros e.
  - by apply elem_of_nil in Hin.
  - simpl. destruct (ExportEnv.parseEnvFile fs g) as [m|err|] eqn:Hg; simpl.
    + apply elem_of_cons in Hin as [->|Hin]; [|by apply IH].
      unfold ExportEnv.parseEnvFile in Hg.
      destruct Hbad as [Hbad|[lines Hbad]]; rewrite Hbad in Hg; discriminate.
    + by exists err.
    + unfold ExportEnv.parseEnvFile in Hg.
      destruct (fs g) as [|lines []]; discriminate.
Qed.

End Load.

Lemma mergeAll_keep_defined (ms : list EnvMap) (e : EnvMap) k v :
  e !! k = Some v → mergeAll false e ms !! k = Some v.
Proof.
  revert e. induction ms as [|m ms IH]; intros e He; simpl; [done|].
  apply IH. by apply lookup_union_Some_l.
Qed.

Lemma mergeAll_keep_first (ms : list EnvMap) (e : EnvMap) i mi k v :
  e !! k = None →
  ms !! i = Some mi → mi !! k = Some v →
  (∀ j mj, j < i → ms !! j = Some mj → mj !! k = None) →
  mergeAll false e ms !! k = Some v.
Proof.
  revert e i. induction ms as [|m ms IH]; intros e i He Hi Hv Hfirst; [done|].
  simpl. destruct i as [|i]; simpl in Hi.
  - injection Hi as ->. apply mergeAll_keep_defined.
    rewrite lookup_union_r; done.
  - apply (IH _ i); [|done|done|].
    + rewrite lookup_union_r; [|done]. apply (Hfirst 0); [lia|done].
    + intros j mj Hj Hmj. apply (Hfirst (S j)); [lia|done].
Qed.

Lemma mergeAll_override_undefined (ms : list EnvMap) (e : EnvMap) k :
  (∀ j mj, ms !! j = Some mj → mj !! k = None) →
  mergeAll true e ms !! k = e !! k.
Proof.
  revert e. induction ms as [|m ms IH]; intros e Hnone; simpl; [done|].
  rewrite IH.
  - apply lookup_union_r. apply (Hnone 0). done.
  - intros j mj Hmj. apply (Hnone (S j)). done.
Qed.

Lemma mergeAll_override_last (ms : list EnvMap) (e : EnvMap) i mi k v :
  ms !! i = Some mi → mi !! k = Some v →
  (∀ j mj, i < j → ms !! j = Some mj → mj !! k = None) →
  mergeAll true e ms !! k = Some v.
Proof.
  revert e i. induction ms as [|m ms IH]; intros e i Hi Hv Hlast; [done|].
  simpl. destruct i as [|i]; simpl in Hi.
  - injection Hi as ->. rewrite mergeAll_override_undefined.
    + by apply lookup_union_Some_l.
    + intros j mj Hmj. apply (Hlast (S j)); [lia|done].
  - apply (IH _ i); [done|done|].
    intros j mj Hj Hmj. apply (Hlast (S j)); [lia|done].
Qed.

(** C1. Multi-file merge: when every file parses, a key defined by the
    file at position [i] gets, with override off, that file's value if no
    earlier file defines the key (the first definition wins), and with
    override on, that file's value if no later file defines the key (the
    last definition wins). *)
Theorem loadEnvFiles_precedence
    (range : EnvMap → list (string * string)) (Hrange : range_order range)
    (fs : filesystem) (files : list string) (ms : list EnvMap)
    (i : nat) (mi : EnvMap) (k v : string) :
  Forall2 (λ f m, ExportEnv.parseEnvFile fs f = Ok m) (ExportEnv.defaultFiles files) ms →
  ms !! i = Some mi →
  mi !! k = Some v →
  ((∀ j mj, j < i → ms !! j = Some mj → mj !! k = None) →
   ∃ merged, ExportEnv.loadEnvFiles range fs files false = Ok merged ∧
             merged !! k = Some v) ∧
  ((∀ j mj, i < j → ms !! j = Some mj → mj !! k = None) →
   ∃ merged, ExportEnv.loadEnvFiles range fs files true = Ok merged ∧
             merged !! k = Some v).
Proof.
  intros Hparsed Hi Hv. unfold ExportEnv.loadEnvFiles. split; intros Hothers.
  - eexists. split; [by apply loadLoop_parsed|].
    by apply (mergeAll_keep_first ms ∅ i mi).
  - eexists. split; [by apply loadLoop_parsed|].
    by apply (mergeAll_override_last ms ∅ i mi).
Qed.

(** ** Command-line variables *)

Lemma SplitN2_pair (k v : string) :
  str_forall (λ c, negb (isCode 61 c)) k = true →
  SplitN2 (k +:+ "=" +:+ v) = [k; v].
Proof.
  induction k as [|c k IH]; simpl; intros Hk; [done|].
  apply andb_true_iff in Hk as [Hc Hk].
  apply negb_true_iff in Hc. rewrite Hc. by rewrite IH.
Qed.

Lemma parseCommandLineVars_pairs (pairs : list (string * string)) :
  Forall (λ kv, str_forall (λ c, negb (isCode 61 c)) kv.1 = true) pairs →
  ExportEnv.parseCommandLineVars (map (λ kv, kv.1 +:+ "=" +:+ kv.2) pairs)
  = list_to_map (reverse pairs).
Proof.
  intros Hkeys. unfold ExportEnv.parseCommandLineVars.
  rewrite <- (right_id_L ∅ (∪) (list_to_map (reverse pairs))).
  rewrite <- foldl_insert_union. generalize (∅ : EnvMap).
  induction Hkeys as [|[k v] pairs Hk _ IH]; intros e; simpl; [done|].
  rewrite SplitN2_pair by done. apply IH.
Qed.

Lemma list_to_map_last_pair (l1 l2 : list (string * string)) (k v : string) :
  k ∉ l2.*1 →
  (list_to_map (reverse (l1 ++ (k, v) :: l2)) : EnvMap) !! k = Some v.
Proof.
  intros Hk. rewrite reverse_app, reverse_cons, <- (assoc_L (++)), !list_to_map_app.
  rewrite lookup_union_r.
  - apply lookup_union_Some_l. simpl. apply lookup_insert_eq.
  - apply not_elem_of_list_to_map_1. by rewrite fmap_reverse, elem_of_reverse.
Qed.

Lemma expandFrom_no_dollar (mapping : string → string) (s : string) :
  str_forall (λ c, negb (isCode 36 c)) s = true → expandFrom mapping 0 s = s.
Proof.
  induction s as [|c s IH]; simpl; intros Hs; [done|].
  apply andb_true_iff in Hs as [Hc Hs]. apply negb_true_iff in Hc.
  rewrite Hc. simpl. by rewrite IH.
Qed.

Lemma mergeEnvVars_cmdline_lookup
    (range : EnvMap → list (string * string)) (Hrange : range_order range)
    (envVars : EnvMap) (before after : list (string * string)) (k v : string) :
  Forall (λ kv, str_forall (λ c, negb (isCode 61 c)) kv.1 = true)
         (before ++ (k, v) :: after) →
  k ∉ after.*1 →
  ExportEnv.mergeEnvVars range envVars
    (ExportEnv.parseCommandLineVars
       (map (λ kv, kv.1 +:+ "=" +:+ kv.2) (before ++ (k, v) :: after))) !! k
  = Some v.
Proof.
  intros Hkeys Hlast.
  rewrite mergeEnvVars_union by done.
  rewrite parseCommandLineVars_pairs by done.
  apply lookup_union_Some_l. by apply list_to_map_last_pair.
Qed.

(** A value without a dollar sign stays what it is through the expansion
    pass, whatever the other values are and in whatever order the keys
    are visited. *)
Lemma expandEnvVarsIn_lookup_plain (order : list string) (envVars : EnvMap)
    (k v : string) :
  envVars !! k = Some v →
  str_forall (λ c, negb (isCode 36 c)) v = true →
  ExportEnv.expandEnvVarsIn order envVars !! k = Some v.
Proof.
  intros Hk Hv. unfold ExportEnv.expandEnvVarsIn. revert envVars Hk.
  induction order as [|j order IH]; intros envVars Hk; simpl; [done|].
  apply IH. destruct (envVars !! j) as [w|] eqn:Hj; [|done].
  destruct (decide (j = k)) as [->|Hne].
  - rewrite Hk in Hj. injection Hj as <-.
    unfold Expand. rewrite expandFrom_no_dollar by done. apply lookup_insert_eq.
  - by rewrite lookup_insert_ne.
Qed.

Lemma sortEnvVars_entry
    (range : EnvMap → list (string * string)) (Hrange : range_order range)
    (envVars : EnvMap) (k v : string) :
  envVars !! k = Some v →
  (k +:+ "=" +:+ v) ∈ ExportEnv.sortEnvVars range envVars.
Proof.
  intros Hk. unfold ExportEnv.sortEnvVars. cbv zeta.
  apply list_elem_of_In, in_map_iff. exists k. split.
  - unfold index. by rewrite Hk.
  - apply list_elem_of_In. rewrite merge_sort_Permutation, (Hrange envVars).
    apply list_elem_of_fmap. exists (k, v). split; [done|].
    by apply elem_of_map_to_list.
Qed.

Lemma printExportableEnvVars_entry (sortedEnvVars : list string) (k v : string) :
  str_forall (λ c, negb (isCode 61 c)) k = true →
  (k +:+ "=" +:+ v) ∈ sortedEnvVars →
  Print ("export " +:+ k +:+ "=" +:+ str dquote
         +:+ ReplaceAll v (str dquote) (String backslash (str dquote))
         +:+ str dquote)
  ∈ ExportEnv.printExportableEnvVars sortedEnvVars.
Proof.
  intros Hk Hin. unfold ExportEnv.printExportableEnvVars.
  apply list_elem_of_In, in_map_iff. exists (k +:+ "=" +:+ v).
  split; [|by apply list_elem_of_In]. cbv zeta. by rewrite SplitN2_pair.
Qed.

(** C2, amended. Command-line variables through a whole run: when the
    files load, the run prints or passes on the entries of one final
    mapping, and that mapping holds for every key given by a
    [-v KEY=VALUE] pair (the last pair, when a key is given more than
    once) its command-line value, whatever the files and the override
    flag gave, provided that expansion is switched off or the value has
    no dollar sign. Without a command the run so prints the export
    statement of the key with that value. *)
Theorem cmdline_vars_take_precedence
    (range : EnvMap → list (string * string)) (Hrange : range_order range)
    (fs : filesystem) (cmdFails : list string → list string → bool)
    (args : ExportEnv.Args) (envVars : EnvMap)
    (before after : list (string * string)) (k v : string) :
  ExportEnv.loadEnvFiles range fs (ExportEnv.EnvFiles args) (ExportEnv.Override args)
  = Ok envVars →
  ExportEnv.Vars args
  = map (λ kv, kv.1 +:+ "=" +:+ kv.2) (before ++ (k, v) :: after) →
  Forall (λ kv, str_forall (λ c, negb (isCode 61 c)) kv.1 = true)
         (before ++ (k, v) :: after) →
  k ∉ after.*1 →
  ExportEnv.NoExpand args = true ∨ str_forall (λ c, negb (isCode 36 c)) v = true →
  ∃ final : EnvMap,
    final !! k = Some v ∧
    ExportEnv.main range fs cmdFails args
    = match ExportEnv.Cmd args with
      | [] => ExportEnv.printExportableEnvVars (ExportEnv.sortEnvVars range final)
      | _ => ExportEnv.handleExecution cmdFails (ExportEnv.Cmd args)
               (ExportEnv.sortEnvVars range final)
      end ∧
    (k +:+ "=" +:+ v) ∈ ExportEnv.sortEnvVars range final ∧
    (ExportEnv.Cmd args = [] →
     Print ("export " +:+ k +:+ "=" +:+ str dquote
            +:+ ReplaceAll v (str dquote) (String backslash (str dquote))
            +:+ str dquote)
     ∈ ExportEnv.main range fs cmdFails args).
Proof.
  intros Hload Hvars Hkeys Hlast Hplain.
  pose proof (mergeEnvVars_cmdline_lookup range Hrange envVars before after k v
                Hkeys Hlast) as Hmerged.
  rewrite <- Hvars in Hmerged.
  set (merged := ExportEnv.mergeEnvVars range envVars
                   (ExportEnv.parseCommandLineVars (ExportEnv.Vars args))) in *.
  set (final := if ExportEnv.NoExpand args then merged
                else ExportEnv.expandEnvVars range merged).
  assert (Hfinal : final !! k = Some v).
  { subst final. destruct (ExportEnv.NoExpand args); [done|].
    destruct Hplain as [?|Hplain]; [done|].
    by apply expandEnvVarsIn_lookup_plain. }
  assert (Hmain : ExportEnv.main range fs cmdFails args
                  = match ExportEnv.Cmd args with
                    | [] => ExportEnv.printExportableEnvVars
                              (ExportEnv.sortEnvVars range final)
                    | _ => ExportEnv.handleExecution cmdFails (ExportEnv.Cmd args)
                             (ExportEnv.sortEnvVars range final)
                    end).
  { unfold ExportEnv.main. by rewrite Hload. }
  pose proof (sortEnvVars_entry range Hrange final k v Hfinal) as Hentry.
  exists final. repeat split; [done|done|done|].
  intros Hcmd. rewrite Hmain, Hcmd.
  apply printExportableEnvVars_entry; [|done].
  apply Forall_app in Hkeys as [_ Hkeys]. by apply Forall_cons in Hkeys as [Hk _].
Qed.

(** The statement of C2 as it was given fails on a value with a
    reference: with the file line [A=1] and [-v A=${B}] the run exports
    [A] with the empty value, not with the command-line value, in either
    iteration order. *)
Lemma cmdline_value_is_expanded :
  let args := {| ExportEnv.EnvFiles := []; ExportEnv.NoExpand := false;
                 ExportEnv.Override := false; ExportEnv.Vars := ["A=${B}"];
                 ExportEnv.Cmd := [] |} in
  ExportEnv.parseCommandLineVars (ExportEnv.Vars args) !! "A" = Some "${B}" ∧
  ExportEnv.main Fixtures.forwardRange (Fixtures.dotEnv ["A=1"]) (λ _ _, false) args
  = [Print ("export A=" +:+ str dquote +:+ str dquote)] ∧
  ExportEnv.main Fixtures.backwardRange (Fixtures.dotEnv ["A=1"]) (λ _ _, false) args
  = [Print ("export A=" +:+ str dquote +:+ str dquote)].
Proof. vm_compute. done. Qed.

(** ** Unreadable files *)

(** C7. Fatal I/O error: if a file of the list (the default [.env] when
    the list is empty) cannot be opened, or its scan ends with an error,
    the whole run consists of the one error record: no export statement is
    printed and no command is run, also not for the files before it. *)
Theorem main_unreadable_file_no_output
    (range : EnvMap → list (string * string))
    (fs : filesystem) (cmdFails : list string → list string → bool)
    (args : ExportEnv.Args) (f : string) :
  f ∈ ExportEnv.defaultFiles (ExportEnv.EnvFiles args) →
  (fs f = Unopenable ∨ ∃ lines, fs f = Readable lines true) →
  ∃ err, ExportEnv.main range fs cmdFails args = [LogError "Error loading env files" err].
Proof.
  intros Hin Hbad. unfold ExportEnv.main, ExportEnv.loadEnvFiles.
  destruct (loadLoop_unreadable range fs (ExportEnv.Override args) _ ∅ f Hin Hbad)
    as [err ->].
  by exists err.
Qed.

(** ** Strings *)

Lemma str_length_app (a b : string) :
  String.length (a +:+ b) = String.length a + String.length b.
Proof. induction a as [|c a IH]; simpl; [done|]. by rewrite IH. Qed.

Lemma str_take_app (a b : string) : str_take (String.length a) (a +:+ b) = a.
Proof. induction a as [|c a IH]; simpl; [by destruct b|]. by rewrite IH. Qed.

Lemma str_drop_app (a b : string) : str_drop (String.length a) (a +:+ b) = b.
Proof. induction a as [|c a IH]; simpl; [by destruct b|]. done. Qed.

Lemma str_drop_0 (a : string) : str_drop 0 a = a.
Proof. by destruct a. Qed.

Lemma str_app_assoc (a b c : string) : (a +:+ b) +:+ c = a +:+ b +:+ c.
Proof.
  induction a as [|x a IH]; [done|].
  change (String x ((a +:+ b) +:+ c) = String x (a +:+ b +:+ c)). by f_equal.
Qed.

Lemma str_take_all (a : string) : str_take (String.length a) a = a.
Proof. induction a as [|c a IH]; simpl; [done|]. by rewrite IH. Qed.

Lemma list_ascii_app (a b : string) :
  list_ascii_of_string (a +:+ b) = list_ascii_of_string a ++ list_ascii_of_string b.
Proof. induction a as [|c a IH]; simpl; [done|]. by rewrite IH. Qed.

Lemma str_forall_Forall (p : ascii → bool) (s : string) :
  str_forall p s = true ↔ Forall (λ c, p c = true) (list_ascii_of_string s).
Proof.
  induction s as [|c s IH]; simpl.
  - split; [constructor|done].
  - rewrite andb_true_iff, Forall_cons, IH. done.
Qed.

Lemma str_forall_impl (p q : ascii → bool) (s : string) :
  (∀ c, p c = true → q c = true) → str_forall p s = true → str_forall q s = true.
Proof.
  intros Hpq. induction s as [|c s IH]; simpl; [done|].
  rewrite !andb_true_iff. intros [Hc Hs]. split; [by apply Hpq|by apply IH].
Qed.

(** ** The regular-expression matcher *)

Section Matcher.
Context (p : ascii → bool).

(** A greedy star that cannot take the next character hands over at once. *)
Lemma starGreedy_stop pos s caps (k : cont) :
  (∀ c t, s = String c t → p c = false) →
  starGreedy p pos s caps k = k pos s caps.
Proof.
  intros Hs. destruct s as [|c t]; simpl; [done|].
  by rewrite (Hs c t).
Qed.

(** It runs over a block of the class and hands over behind it, when the
    rest of the pattern matches there. *)
Lemma starGreedy_run pos x y caps (k : cont) res :
  str_forall p x = true →
  (∀ c t, y = String c t → p c = false) →
  k (pos + String.length x) y caps = Some res →
  starGreedy p pos (x +:+ y) caps k = Some res.
Proof.
  revert pos. induction x as [|c x IH]; intros pos Hx Hy Hk; simpl in *.
  - rewrite starGreedy_stop by done. by rewrite Nat.add_0_r in Hk.
  - apply andb_true_iff in Hx as [-> Hx].
    rewrite (IH (S pos)); [done|done|done|].
    by rewrite <- Nat.add_succ_comm in Hk.
Qed.

(** A lazy star runs to the end of the text when the rest of the pattern
    matches nowhere before; [q] is what is known of every suffix. *)
Lemma starLazy_run (q : ascii → bool) pos s caps (k : cont) :
  str_forall p s = true →
  str_forall q s = true →
  (∀ pos' c t caps', str_forall q (String c t) = true →
                     k pos' (String c t) caps' = None) →
  starLazy p pos s caps k = k (pos + String.length s) EmptyString caps.
Proof.
  revert pos. induction s as [|c s IH]; intros pos Hs Hq Hk.
  - simpl. rewrite Nat.add_0_r. by destruct (k pos EmptyString caps).
  - cbn [starLazy]. rewrite (Hk _ _ _ _ Hq). simpl in Hs, Hq.
    apply andb_true_iff in Hs as [-> Hs]. apply andb_true_iff in Hq as [_ Hq].
    rewrite IH by done. f_equal. simpl. lia.
Qed.

(** No amount of backtracking helps a greedy star when the rest of the
    pattern matches at no suffix. *)
Lemma starGreedy_none (q : ascii → bool) pos s caps (k : cont) :
  str_forall q s = true →
  (∀ pos' s' caps', str_forall q s' = true → k pos' s' caps' = None) →
  starGreedy p pos s caps k = None.
Proof.
  revert pos. induction s as [|c s IH]; intros pos Hq Hk.
  - simpl. by apply Hk.
  - cbn [starGreedy]. rewrite (Hk _ _ _ Hq). simpl in Hq.
    apply andb_true_iff in Hq as [_ Hq]. rewrite IH by done. by destruct (p c).
Qed.

End Matcher.

Lemma search_found (r : regex) pos s caps :
  matchAt r pos s = Some caps → search r pos s = Some caps.
Proof. intros Hm. destruct s; simpl; by rewrite Hm. Qed.

(** ** [envLinePattern] on a line [KEY=VALUE] *)

Section EnvLine.
Import Lines.

Lemma isCode_eqb (n : nat) (c : ascii) :
  n < 256 → isCode (N.of_nat n) c = Ascii.eqb c (ascii_of_nat n).
Proof.
  intros Hn. unfold isCode, code.
  destruct (Ascii.eqb c (ascii_of_nat n)) eqn:Hc.
  - apply Ascii.eqb_eq in Hc as ->. apply N.eqb_eq.
    rewrite <- (nat_ascii_embedding n) at 2 by done.
    unfold nat_of_ascii. by rewrite N2Nat.id.
  - apply N.eqb_neq. intros Hcode. apply Ascii.eqb_neq in Hc. apply Hc.
    rewrite <- (ascii_nat_embedding c). f_equal.
    unfold nat_of_ascii. rewrite Hcode. apply Nat2N.id.
Qed.

Lemma plain_not_hash (s : string) :
  str_forall isPlainChar s = true →
  str_forall (λ c, negb (cls_is 35 c)) s = true.
Proof.
  apply str_forall_impl. intros c. unfold isPlainChar, cls_is.
  rewrite (isCode_eqb 35) by lia. fold hash.
  destruct (Ascii.eqb c hash); [|done]. by rewrite !orb_true_r.
Qed.

Lemma plain_dot (s : string) :
  str_forall isPlainChar s = true → str_forall cls_dot s = true.
Proof.
  apply str_forall_impl. intros c. unfold isPlainChar, cls_dot.
  rewrite (isCode_eqb 10) by lia. fold newline.
  destruct (Ascii.eqb c newline); [|done]. by rewrite !orb_true_r.
Qed.

Lemma name_notHashEq (c : ascii) : cls_name c = true → cls_notHashEq c = true.
Proof.
  unfold cls_name, cls_nameStart, cls_upper, cls_lower, cls_digit, cls_notHashEq, isCode.
  rewrite !orb_true_iff, !andb_true_iff, !N.leb_le, !N.eqb_eq, negb_true_iff.
  rewrite orb_false_iff, !N.eqb_neq. lia.
Qed.

Lemma name_not_space (c : ascii) : cls_name c = true → cls_space c = false.
Proof.
  unfold cls_name, cls_nameStart, cls_upper, cls_lower, cls_digit, cls_space, isCode.
  rewrite !orb_true_iff, !andb_true_iff, !N.leb_le, !N.eqb_eq.
  rewrite !orb_false_iff, !N.eqb_neq. lia.
Qed.

(** The tail of the pattern, optional comment and end of text, fails
    before the end of a value without [#]. *)
Lemma comment_tail_fails pos c t caps (k : cont) :
  str_forall (λ c, negb (cls_is 35 c)) (String c t) = true →
  rmatch (RSeq (ROpt (RGroup 3 (seqs [RStar cls_space; RChar (cls_is 35); RStar cls_dot])))
               REnd) pos (String c t) caps k = None.
Proof.
  intros Hs. cbn [rmatch seqs].
  rewrite (starGreedy_none cls_space (λ c, negb (cls_is 35 c))); [done|done|].
  intros pos' [|c' t'] caps' Hs'; [done|].
  simpl in Hs'. apply andb_true_iff in Hs' as [Hc' _].
  apply negb_true_iff in Hc'. by rewrite Hc'.
Qed.

Lemma comment_tail_end pos caps (k : cont) :
  rmatch (RSeq (ROpt (RGroup 3 (seqs [RStar cls_space; RChar (cls_is 35); RStar cls_dot])))
               REnd) pos EmptyString caps k = k pos EmptyString caps.
Proof. done. Qed.

Lemma envLinePattern_match (K V : string) :
  isName K = true →
  str_forall isPlainChar V = true →
  (∀ c t, V = String c t → cls_space c = false) →
  FindStringSubmatch Simple.envLinePattern 3 (K +:+ "=" +:+ V)
  = Some [K +:+ "=" +:+ V; K; V; EmptyString].
Proof.
  intros HK HV Hhead.
  destruct K as [|c K]; [done|]. simpl in HK.
  apply andb_true_iff in HK as [Hc HK].
  assert (Hc' : cls_name c = true) by (unfold cls_name; by rewrite Hc).
  set (line := String c K +:+ "=" +:+ V).
  set (res := (<[0 := (0, String.length line)]>
               (<[2 := (S (String.length (String c K)), String.length line)]>
               (<[1 := (0, String.length (String c K))]> ∅))) : captures).
  assert (Hm : matchAt Simple.envLinePattern 0 line = Some res).
  { unfold matchAt, Simple.envLinePattern. cbn [seqs].
    set (tail := RSeq (ROpt _) REnd).
    subst line. cbn [rmatch Nat.eqb].
    change (String c K +:+ "=" +:+ V) with (String c (K +:+ "=" +:+ V)).
    rewrite starGreedy_stop.
    2:{ intros c' t' [= <- _]. by apply name_not_space. }
    cbv iota. rewrite (name_notHashEq c Hc').
    apply (starGreedy_run cls_notHashEq 1 K ("=" +:+ V)).
    { revert HK. apply str_forall_impl, name_notHashEq. }
    { by intros c' t' [= <- _]. }
    rewrite starGreedy_stop by (by intros c' t' [= <- _]).
    change ("=" +:+ V) with (String "=" V). cbv iota.
    change (cls_is 61 "=") with true. cbv iota.
    rewrite starGreedy_stop by done.
    rewrite (starLazy_run cls_dot (λ c, negb (cls_is 35 c))).
    - subst tail. rewrite comment_tail_end. unfold res. do 3 f_equal.
      + simpl. rewrite !str_length_app. simpl. lia.
      + do 2 f_equal. simpl. rewrite !str_length_app. simpl. f_equal. lia.
    - by apply plain_dot.
    - by apply plain_not_hash.
    - intros pos' c' t' caps' Hq. subst tail. by apply comment_tail_fails. }
  unfold FindStringSubmatch. fold line. rewrite (search_found _ _ _ _ Hm).
  assert (H0 : res !! 0 = Some (0, String.length line)) by done.
  assert (H1 : res !! 1 = Some (0, String.length (String c K))) by done.
  assert (H2 : res !! 2 = Some (S (String.length (String c K)), String.length line))
    by done.
  assert (H3 : res !! 3 = None) by done.
  f_equal. cbn [seq map]. unfold group. rewrite H0, H1, H2, H3.
  rewrite !Nat.sub_0_r, !str_drop_0, str_take_all.
  f_equal. f_equal; [apply str_take_app|]. f_equal.
  unfold line. rewrite <- str_app_assoc.
  replace (S (String.length (String c K))) with (String.length (String c K +:+ "="))
    by (rewrite str_length_app; simpl; lia).
  rewrite str_drop_app.
  replace (_ - _) with (String.length V) by (rewrite !str_length_app; lia).
  apply str_take_all.
Qed.

End EnvLine.

(** ** [TrimSpace] *)

Lemma dropRunes_length (width : list ascii → nat) skip l :
  length (dropRunes width skip l) ≤ length l.
Proof.
  revert skip. induction l as [|a l IH]; intros skip; simpl; [done|].
  destruct skip as [|k].
  - destruct (width (a :: l)) as [|k]; simpl; [done|]. specialize (IH k). lia.
  - specialize (IH k). lia.
Qed.

Lemma dropRunes_fixed (width : list ascii → nat) l :
  width l = 0 → dropRunes width 0 l = l.
Proof. intros Hw. destruct l as [|a l]; simpl; [done|]. by rewrite Hw. Qed.

Lemma dropRunes_same_length (width : list ascii → nat) l :
  length (dropRunes width 0 l) = length l → l = [] ∨ width l = 0.
Proof.
  destruct l as [|a l]; [by left|]. simpl.
  destruct (width (a :: l)) as [|k]; [by right|].
  intros Hlen. pose proof (dropRunes_length width k l). lia.
Qed.

Lemma trimLeft_length l : length (trimLeft l) ≤ length l.
Proof. apply dropRunes_length. Qed.

Lemma trimRight_length l : length (trimRight l) ≤ length l.
Proof.
  unfold trimRight. rewrite length_reverse.
  etransitivity; [apply dropRunes_length|]. by rewrite length_reverse.
Qed.

Lemma TrimSpace_fixed (s : string) :
  spaceWidth (list_ascii_of_string s) = 0 →
  spaceWidthRev (reverse (list_ascii_of_string s)) = 0 →
  TrimSpace s = s.
Proof.
  intros Hl Hr. unfold TrimSpace, trimLeft, trimRight.
  rewrite (dropRunes_fixed _ _ Hl), (dropRunes_fixed _ _ Hr), reverse_involutive.
  apply string_of_list_ascii_of_string.
Qed.

Lemma TrimSpace_fixed_inv (s : string) :
  TrimSpace s = s →
  s = EmptyString ∨
  (spaceWidth (list_ascii_of_string s) = 0 ∧
   spaceWidthRev (reverse (list_ascii_of_string s)) = 0).
Proof.
  unfold TrimSpace. intros Hs.
  apply (f_equal list_ascii_of_string) in Hs.
  rewrite list_ascii_of_string_of_list_ascii in Hs.
  set (l := list_ascii_of_string s) in *.
  pose proof (trimRight_length (trimLeft l)) as Hr.
  pose proof (trimLeft_length l) as Hl.
  assert (Hlen : length (trimLeft l) = length l) by (rewrite Hs in Hr; lia).
  destruct (dropRunes_same_length _ _ Hlen) as [Hnil|Hwl].
  { left. destruct s; [done|discriminate]. }
  right. split; [done|].
  unfold trimLeft in Hs. rewrite (dropRunes_fixed _ _ Hwl) in Hs.
  unfold trimRight in Hs.
  apply (f_equal length) in Hs. rewrite length_reverse in Hs.
  rewrite <- (length_reverse l) in Hs.
  destruct (dropRunes_same_length _ _ Hs) as [Hnil|Hwr]; [|done].
  by rewrite Hnil.
Qed.

(** Bytes below 128 other than white space neither are nor take part in a
    white-space rune. *)
Lemma isCode_low (n : N) (c : ascii) :
  (code c < 128)%N → (128 ≤ n)%N → isCode n c = false.
Proof. intros Hc Hn. unfold isCode. apply N.eqb_neq. lia. Qed.

Lemma isSpace2_low_l a b : (code a < 128)%N → isSpace2 a b = false.
Proof. intros Ha. unfold isSpace2. by rewrite (isCode_low _ a Ha). Qed.

Lemma isSpace2_low_r a b : (code b < 128)%N → isSpace2 a b = false.
Proof.
  intros Hb. unfold isSpace2. rewrite !(isCode_low _ b Hb) by done.
  by rewrite andb_false_r.
Qed.

Lemma isSpace3_low_1 a b c : (code a < 128)%N → isSpace3 a b c = false.
Proof. intros Ha. unfold isSpace3. by rewrite !(isCode_low _ a Ha). Qed.

Lemma isSpace3_low_2 a b c : (code b < 128)%N → isSpace3 a b c = false.
Proof.
  intros Hb. unfold isSpace3. rewrite !(isCode_low _ b Hb) by done.
  simpl. by rewrite !andb_false_r.
Qed.

Lemma isSpace3_low_3 a b c : (code c < 128)%N → isSpace3 a b c = false.
Proof.
  intros Hc. unfold isSpace3. rewrite !(isCode_low _ c Hc) by done.
  replace (N.leb 128 (code c)) with false by (symmetry; apply N.leb_gt; lia).
  simpl. by rewrite !andb_false_r.
Qed.

Lemma spaceWidth_low a t :
  isAsciiSpace a = false → (code a < 128)%N → spaceWidth (a :: t) = 0.
Proof.
  intros Hs Ha. simpl. rewrite Hs.
  destruct t as [|b [|c t]]; [done| |].
  - by rewrite isSpace2_low_l.
  - by rewrite isSpace2_low_l, isSpace3_low_1.
Qed.

Lemma spaceWidthRev_low a t :
  isAsciiSpace a = false → (code a < 128)%N → spaceWidthRev (a :: t) = 0.
Proof.
  intros Hs Ha. simpl. rewrite Hs.
  destruct t as [|b [|c t]]; [done| |].
  - by rewrite isSpace2_low_r.
  - by rewrite isSpace2_low_r, isSpace3_low_3.
Qed.

(** A byte below 128 put behind the text cannot complete a white-space
    rune at the end of the text. *)
Lemma spaceWidthRev_extend x e y :
  x ≠ [] → spaceWidthRev x = 0 → (code e < 128)%N →
  spaceWidthRev (x ++ e :: y) = 0.
Proof.
  intros Hx Hw He. destruct x as [|a [|b [|c x]]]; [done| | |].
  - simpl in *. destruct (isAsciiSpace a); [done|].
    rewrite isSpace2_low_l by done. destruct y; [done|].
    by rewrite isSpace3_low_2.
  - simpl in *. destruct (isAsciiSpace a); [done|].
    destruct (isSpace2 b a); [done|]. by rewrite isSpace3_low_1.
  - exact Hw.
Qed.

Lemma name_low (c : ascii) :
  cls_name c = true → isAsciiSpace c = false ∧ (code c < 128)%N.
Proof.
  unfold cls_name, cls_nameStart, cls_upper, cls_lower, cls_digit, isAsciiSpace, isCode.
  rewrite !orb_true_iff, !andb_true_iff, !N.leb_le, !N.eqb_eq.
  rewrite orb_false_iff, andb_false_iff, !N.leb_gt, N.eqb_neq. lia.
Qed.

Lemma space_asciiSpace (c : ascii) : isAsciiSpace c = false → cls_space c = false.
Proof.
  unfold cls_space, isAsciiSpace, isCode.
  rewrite !orb_false_iff, andb_false_iff, !N.leb_gt, !N.eqb_neq. lia.
Qed.

Lemma spaceWidth_head a t : spaceWidth (a :: t) = 0 → isAsciiSpace a = false.
Proof. simpl. by destruct (isAsciiSpace a). Qed.

(** ** The round trip of a plain line *)

Section RoundTrip.
Import Lines.

Lemma isName_chars (K : string) :
  isName K = true →
  ∃ c t, K = String c t ∧ Forall (λ a, cls_name a = true) (list_ascii_of_string K).
Proof.
  destruct K as [|c t]; [done|]. simpl. intros HK.
  apply andb_true_iff in HK as [Hc Ht]. exists c, t. split; [done|].
  constructor.
  - unfold cls_name. by rewrite Hc.
  - by apply str_forall_Forall.
Qed.

Lemma TrimSpace_name (K : string) : isName K = true → TrimSpace K = K.
Proof.
  intros HK. destruct (isName_chars K HK) as (c & t & -> & Hall).
  apply TrimSpace_fixed.
  - simpl. apply Forall_cons in Hall as [Hc _].
    destruct (name_low c Hc). by apply spaceWidth_low.
  - destruct (reverse (list_ascii_of_string (String c t))) as [|a r] eqn:Hrev.
    + done.
    + assert (Ha : a ∈ list_ascii_of_string (String c t)).
      { apply elem_of_reverse. rewrite Hrev. by left. }
      rewrite Forall_forall in Hall. destruct (name_low a (Hall a Ha)).
      by apply spaceWidthRev_low.
Qed.

Lemma TrimSpace_line (K V : string) :
  isName K = true → TrimSpace V = V →
  TrimSpace (K +:+ "=" +:+ V) = K +:+ "=" +:+ V.
Proof.
  intros HK HV. destruct (isName_chars K HK) as (c & t & -> & Hall).
  assert (Heq : (code "=" < 128)%N) by done.
  apply TrimSpace_fixed.
  - simpl. apply Forall_cons in Hall as [Hc _].
    destruct (name_low c Hc). by apply spaceWidth_low.
  - set (lK := list_ascii_of_string (String c t)).
    assert (Hrev : reverse (list_ascii_of_string (String c t +:+ "=" +:+ V))
                   = reverse (list_ascii_of_string V) ++ "="%char :: reverse lK).
    { rewrite !list_ascii_app, !reverse_app, <- (assoc_L (++)). done. }
    rewrite Hrev.
    destruct (TrimSpace_fixed_inv V HV) as [->|[_ Hr]].
    + change (spaceWidthRev ("="%char :: reverse lK) = 0). by apply spaceWidthRev_low.
    + destruct V as [|v V].
      * change (spaceWidthRev ("="%char :: reverse lK) = 0). by apply spaceWidthRev_low.
      * apply spaceWidthRev_extend; [|done|done].
        intros Hnil. apply (f_equal length) in Hnil.
        rewrite length_reverse in Hnil. done.
Qed.

Lemma trimmed_head_not_space (V : string) c t :
  TrimSpace V = V → V = String c t → cls_space c = false.
Proof.
  intros HV ->. destruct (TrimSpace_fixed_inv _ HV) as [?|[Hl _]]; [done|].
  simpl in Hl. by apply space_asciiSpace, (spaceWidth_head c (list_ascii_of_string t)).
Qed.

Lemma replaceFrom_absent (b : ascii) (rest new s : string) :
  str_forall (λ c, negb (Ascii.eqb c b)) s = true →
  replaceFrom (String b rest) new 0 s = s.
Proof.
  induction s as [|c s IH]; [done|]. intros Hs. simpl in Hs.
  apply andb_true_iff in Hs as [Hc Hs]. apply negb_true_iff, Ascii.eqb_neq in Hc.
  cbn [replaceFrom String.prefix].
  destruct (ascii_dec b c) as [->|_]; [done|]. by rewrite IH.
Qed.

Lemma plain_no_backslash (s : string) :
  str_forall isPlainChar s = true →
  str_forall (λ c, negb (Ascii.eqb c backslash)) s = true.
Proof.
  apply str_forall_impl. intros c. unfold isPlainChar.
  destruct (Ascii.eqb c backslash); [|done]. by rewrite !orb_true_r.
Qed.

Lemma cleanValue_plain (V : string) :
  TrimSpace V = V → str_forall isPlainChar V = true →
  Simple.cleanValue V = Some V.
Proof.
  intros HV Hplain. unfold Simple.cleanValue. rewrite HV.
  destruct V as [|c V]; [done|].
  cbn [String.length Nat.eqb Simple.first].
  assert (Hq : Ascii.eqb c dquote = false ∧ Ascii.eqb c squote = false ∧
               Ascii.eqb c backtick = false).
  { simpl in Hplain. apply andb_true_iff in Hplain as [Hc _].
    unfold isPlainChar in Hc. apply negb_true_iff in Hc.
    rewrite !orb_false_iff in Hc. tauto. }
  destruct Hq as (-> & -> & ->). cbn [andb orb mbind option_bind].
  rewrite HV. unfold ReplaceAll.
  pose proof (plain_no_backslash _ Hplain) as Hbs.
  by rewrite 3!(replaceFrom_absent backslash _ _ (String c V) Hbs).
Qed.

Lemma name_not_comment (K rest : string) :
  isName K = true →
  String.eqb (K +:+ rest) EmptyString || HasPrefix (K +:+ rest) (str hash) = false.
Proof.
  destruct K as [|c K]; [done|]. intros HK.
  cbn [isName] in HK. apply andb_true_iff in HK as [Hc _].
  change (String c K +:+ rest) with (String c (K +:+ rest)).
  unfold HasPrefix, str. cbn [String.eqb String.prefix orb].
  destruct (ascii_dec hash c) as [<-|_]; [by vm_compute in Hc|done].
Qed.

Lemma parseStep_plain (envVars : EnvMap) (K V : string) :
  isName K = true → TrimSpace V = V → str_forall isPlainChar V = true →
  Simple.parseStep envVars (K +:+ "=" +:+ V) = Some (<[K := V]> envVars).
Proof.
  intros HK HV Hplain. unfold Simple.parseStep.
  rewrite TrimSpace_line, name_not_comment by done.
  rewrite envLinePattern_match; [|done|done|].
  - rewrite HV, TrimSpace_name, cleanValue_plain by done. done.
  - intros c t. by apply trimmed_head_not_space.
Qed.

End RoundTrip.

(** C8. Round trip: for a line [KEY=VALUE] whose key is a name and whose
    value is trimmed and has no quote, backslash, [#] or newline, parsing
    the file that consists of this line and printing the result in preview
    mode prints, after the heading, exactly the line [KEY=VALUE]. *)
Theorem preview_roundtrip
    (range : EnvMap → list (string * string)) (Hrange : range_order range)
    (fs : filesystem) (args : Simple.Args) (K V : string) :
  Lines.isName K = true →
  TrimSpace V = V →
  str_forall Lines.isPlainChar V = true →
  fs (if String.eqb (Simple.File args) EmptyString then ".env" else Simple.File args)
    = Readable [K +:+ "=" +:+ V] false →
  Simple.Eval args = true →
  Simple.main range fs args
  = [Print "Evaluated environment variables:"; Print (K +:+ "=" +:+ V)].
Proof.
  intros HK HV Hplain Hfs Heval.
  unfold Simple.main, Simple.parseEnvFile. rewrite Hfs.
  cbn [Simple.parseLines]. rewrite parseStep_plain by done.
  cbn [mbind option_bind]. rewrite Heval. unfold Simple.displayEnvVars.
  f_equal.
  assert (Hone : range (<[K := V]> ∅) = [(K, V)]).
  { apply Permutation_singleton_r. rewrite (Hrange _).
    by rewrite insert_empty, map_to_list_singleton. }
  by rewrite Hone.
Qed.

(** ** Output of the single-file program *)

Lemma forwardRange_order : range_order Fixtures.forwardRange.
Proof. intros m. done. Qed.

Lemma backwardRange_order : range_order Fixtures.backwardRange.
Proof. intros m. unfold Fixtures.backwardRange. apply reverse_Permutation. Qed.

(** C6, as the code has it. Unset mode prints exactly one line [unset KEY]
    for each key of the parsed map and nothing of the values; the lines
    come in the order the map is iterated in, which is not specified. *)
Theorem unset_one_line_per_key
    (range : EnvMap → list (string * string)) (Hrange : range_order range)
    (fs : filesystem) (args : Simple.Args) (envVars : EnvMap) :
  Simple.parseEnvFile fs
    (if String.eqb (Simple.File args) EmptyString then ".env" else Simple.File args)
    = Ok envVars →
  Simple.Eval args = false →
  Simple.Unset args = true →
  Simple.main range fs args
  ≡ₚ map (λ kv, Print ("unset " +:+ kv.1)) (map_to_list envVars).
Proof.
  intros Hparse Heval Hunset. unfold Simple.main.
  rewrite Hparse, Heval, Hunset. unfold Simple.unsetEnvVars.
  apply Permutation_map, Hrange.
Qed.

(** C6, as stated, fails: for the file with [A=1] and [B=2] a run that
    iterates the map from its last entry prints [unset B] before
    [unset A]. *)
Lemma unset_output_not_sorted :
  range_order Fixtures.backwardRange ∧
  Simple.main Fixtures.backwardRange
    (Fixtures.dotEnv ["A=1"; "B=2"])
    Fixtures.unsetArgs
  = [Print "unset B"; Print "unset A"] ∧
  ¬ String.le "B" "A".
Proof.
  split; [apply backwardRange_order|]. split; [by vm_compute|].
  unfold String.le. by vm_compute.
Qed.

(** ** Where the multi-file parser leaves the grammar *)

(** [parseLine] reports a quote rune only together with the start of a
    multiline value, so the test of [quoteType] against the double quote
    in [parseEnvFile], made when no multiline value starts, never
    succeeds. *)
Lemma parseLine_quote_only_multiline (line : string) :
  (ExportEnv.parseLine line).1.2 = false → (ExportEnv.parseLine line).2 = nul.
Proof.
  unfold ExportEnv.parseLine.
  destruct (FindStringSubmatch ExportEnv.keyValueLine 2 line)
    as [[|? [|key [|val [|]]]]|]; try done.
  destruct (HasPrefix _ _ || HasPrefix _ _); [|done].
  destruct (ExportEnv.removeInlineComment val) as [|q rest]; [done|].
  by destruct (HasSuffix _ _).
Qed.

(** A line that is neither blank, comment nor continuation and that
    [keyValueLine] does not match is stored: the empty key gets the empty
    value. *)
Lemma parseStep_unmatched (st : ExportEnv.ParseState) (text : string) :
  ExportEnv.multiline st = false →
  ExportEnv.isCommentOrEmpty (TrimSpace text) = false →
  FindStringSubmatch ExportEnv.keyValueLine 2 (TrimSpace text) = None →
  ExportEnv.envVars (ExportEnv.parseStep st text)
  = <[EmptyString := EmptyString]> (ExportEnv.envVars st).
Proof.
  intros Hml Hcomment Hmatch. unfold ExportEnv.parseStep, ExportEnv.parseLine.
  by rewrite Hcomment, Hml, Hmatch.
Qed.

(** C3, at the failing input. In main.go a malformed line is not skipped:
    the file with the lines [A=1] and [invalid line] parses to a map that
    also binds the empty key, and the run prints an export statement for
    it. The single-file program skips the line. *)
Theorem malformed_line_binds_empty_key :
  ExportEnv.parseEnvFile
    (Fixtures.dotEnv ["A=1"; "invalid line"]) ".env"
  = Ok (<[EmptyString := EmptyString]> (<["A" := "1"]> ∅)) ∧
  ExportEnv.main Fixtures.forwardRange
    (Fixtures.dotEnv ["A=1"; "invalid line"])
    (λ _ _, false) Fixtures.noArgs
  = [Print ("export =" +:+ str dquote +:+ str dquote);
     Print ("export A=" +:+ str dquote +:+ "1" +:+ str dquote)] ∧
  Simple.parseEnvFile
    (Fixtures.dotEnv ["A=1"; "invalid line"]) ".env"
  = Ok (<["A" := "1"]> ∅).
Proof. repeat split; by vm_compute. Qed.

(** C4, at the failing input. In main.go the line [escapedQuoteLine],
    a double-quoted value with an escaped double quote between [a] and
    [b], loses its surrounding quotes but keeps the backslash before the
    inner quote. The single-file program removes that backslash. *)
Theorem escaped_quote_kept_escaped :
  ExportEnv.parseLine Fixtures.escapedQuoteLine
  = ("KEY", "a\" +:+ str dquote +:+ "b", false, nul) ∧
  ExportEnv.parseLines [Fixtures.escapedQuoteLine] !! "KEY"
  = Some ("a\" +:+ str dquote +:+ "b") ∧
  Simple.parseLines ∅ [Fixtures.escapedQuoteLine]
  = Some (<["KEY" := "a" +:+ str dquote +:+ "b"]> ∅).
Proof. repeat split; by vm_compute. Qed.

(** C5, at the failing input. After [A=foo], the double-quoted value of
    [quotedRefLine] is stored as written between the quotes: the reference
    to [A] is not expanded and the backslash and the [n] stay two
    characters. The second equation is what the expansion and the
    replacement of the source would give. *)
Theorem double_quoted_value_not_expanded :
  ExportEnv.parseLines ["A=foo"; Fixtures.quotedRefLine] !! "B"
  = Some "${A}bar\n" ∧
  ReplaceAll (ExportEnv.expandVariables "${A}bar\n" (<["A" := "foo"]> ∅))
    (String backslash "n") (str newline)
  = "foobar" +:+ str newline.
Proof. split; by vm_compute. Qed.

(** C9, at the failing input. For [A=${B}], [B=${C}], [C=x] the value of
    [A] after [expandEnvVars] depends on the order of the iteration: [A]
    before [B] leaves [${C}], [B] before [A] gives [x]. Both orders are
    arrangements of the keys of the map. *)
Theorem expandEnvVars_depends_on_order :
  ["A"; "B"; "C"] ≡ₚ (map_to_list Fixtures.chained).*1 ∧
  ["B"; "A"; "C"] ≡ₚ (map_to_list Fixtures.chained).*1 ∧
  ExportEnv.expandEnvVarsIn ["A"; "B"; "C"] Fixtures.chained !! "A" = Some "${C}" ∧
  ExportEnv.expandEnvVarsIn ["B"; "A"; "C"] Fixtures.chained !! "A" = Some "x" ∧
  ExportEnv.expandEnvVars Fixtures.forwardRange Fixtures.chained
  ≠ ExportEnv.expandEnvVars Fixtures.backwardRange Fixtures.chained.
Proof.
  assert (Hkeys : (map_to_list Fixtures.chained).*1 = ["C"; "A"; "B"]) by by vm_compute.
  rewrite Hkeys. split; [|split; [|split; [|split]]].
  - symmetry. apply (Permutation_cons_append ["A"; "B"] "C").
  - apply (reverse_Permutation ["C"; "A"; "B"]).
  - by vm_compute.
  - by vm_compute.
  - intros Heq. apply (f_equal (λ m : EnvMap, m !! "A")) in Heq.
    vm_compute in Heq. discriminate.
Qed.

(** [cleanValue] panics exactly on the values that trim to one quote
    character. *)
Lemma cleanValue_panics_iff (value : string) :
  Simple.cleanValue value = None ↔
  ∃ q, TrimSpace value = str q ∧ (q = dquote ∨ q = squote ∨ q = backtick).
Proof.
  unfold Simple.cleanValue.
  destruct (TrimSpace value) as [|c [|d t]] eqn:Htrim.
  - split; [done|]. by intros (q & ? & _).
  - cbn [String.length Nat.eqb Simple.first Simple.last].
    rewrite !andb_diag. split.
    + intros Hnone. exists c. split; [done|].
      destruct (Ascii.eqb c dquote) eqn:H1; [left; by apply Ascii.eqb_eq|].
      destruct (Ascii.eqb c squote) eqn:H2; [right; left; by apply Ascii.eqb_eq|].
      destruct (Ascii.eqb c backtick) eqn:H3; [right; right; by apply Ascii.eqb_eq|].
      done.
    + intros (q & [= ->] & [->| [->| ->]]); done.
  - split; [|by intros (q & ? & _)].
    set (v := String c (String d t)).
    assert (Hslice : slice v 1 (String.length v - 1)
                     = Some (str_take (String.length t) (String d t))).
    { unfold slice, v. cbn [String.length str_drop].
      replace (S (S (String.length t)) - 1) with (S (String.length t)) by lia.
      replace (1 <=? S (String.length t)) with true by (symmetry; apply Nat.leb_le; lia).
      replace (S (String.length t) <=? S (S (String.length t))) with true
        by (symmetry; apply Nat.leb_le; lia).
      cbn [andb]. do 2 f_equal. lia. }
    rewrite Hslice. cbn [String.length Nat.eqb].
    by destruct (_ || _).
Qed.

(** C10, at the failing input. [cleanValue] is not total: on a value that
    is one quote character the slice [value[1 : len(value)-1]] is [1:0]
    and panics, and a file with the line [loneQuoteLine] crashes the
    program. *)
Theorem cleanValue_lone_quote_panics :
  Simple.cleanValue (str dquote) = None ∧
  Simple.cleanValue (str squote) = None ∧
  Simple.cleanValue (str backtick) = None ∧
  Simple.main Fixtures.forwardRange
    (Fixtures.dotEnv [Fixtures.loneQuoteLine])
    Fixtures.exportArgs
  = [Crash].
Proof. repeat split; by vm_compute. Qed.

(** ** The theorems at concrete inputs *)

(** C1 on the files [F1] with [A=1] and [F2] with [A=2]: the merged [A]
    is 1 without override and 2 with it. *)
Lemma loadEnvFiles_precedence_witness :
  (∃ merged,
     ExportEnv.loadEnvFiles Fixtures.forwardRange Fixtures.twoFiles ["F1"; "F2"] false
     = Ok merged ∧ merged !! "A" = Some "1") ∧
  (∃ merged,
     ExportEnv.loadEnvFiles Fixtures.forwardRange Fixtures.twoFiles ["F1"; "F2"] true
     = Ok merged ∧ merged !! "A" = Some "2").
Proof.
  split.
  - apply (loadEnvFiles_precedence Fixtures.forwardRange forwardRange_order
             Fixtures.twoFiles ["F1"; "F2"]
             [ExportEnv.parseLines ["A=1"]; ExportEnv.parseLines ["A=2"]]
             0 (ExportEnv.parseLines ["A=1"]) "A" "1").
    + repeat constructor.
    + reflexivity.
    + vm_compute. reflexivity.
    + intros j mj Hj. lia.
  - apply (loadEnvFiles_precedence Fixtures.forwardRange forwardRange_order
             Fixtures.twoFiles ["F1"; "F2"]
             [ExportEnv.parseLines ["A=1"]; ExportEnv.parseLines ["A=2"]]
             1 (ExportEnv.parseLines ["A=2"]) "A" "2").
    + repeat constructor.
    + reflexivity.
    + vm_compute. reflexivity.
    + intros [|[|j]] mj Hj Hmj; [lia|lia|discriminate].
Defined.

(** C2 on [-v A=3] over a file with [A=1]. *)
Lemma cmdline_vars_take_precedence_witness :
  let args := {| ExportEnv.EnvFiles := []; ExportEnv.NoExpand := false;
                 ExportEnv.Override := false; ExportEnv.Vars := ["A=3"];
                 ExportEnv.Cmd := [] |} in
  ∃ final : EnvMap,
    final !! "A" = Some "3" ∧
    ExportEnv.main Fixtures.forwardRange (Fixtures.dotEnv ["A=1"]) (λ _ _, false) args
    = ExportEnv.printExportableEnvVars
        (ExportEnv.sortEnvVars Fixtures.forwardRange final) ∧
    "A=3" ∈ ExportEnv.sortEnvVars Fixtures.forwardRange final ∧
    (ExportEnv.Cmd args = [] →
     Print ("export A=" +:+ str dquote
            +:+ ReplaceAll "3" (str dquote) (String backslash (str dquote))
            +:+ str dquote)
     ∈ ExportEnv.main Fixtures.forwardRange (Fixtures.dotEnv ["A=1"]) (λ _ _, false) args).
Proof.
  intros args.
  apply (cmdline_vars_take_precedence Fixtures.forwardRange forwardRange_order
           (Fixtures.dotEnv ["A=1"]) (λ _ _, false) args
           (ExportEnv.parseLines ["A=1"]) [] [] "A" "3").
  - vm_compute. reflexivity.
  - reflexivity.
  - repeat constructor.
  - apply not_elem_of_nil.
  - right. reflexivity.
Defined.

(** C6 on the file with [A=1] and [B=2]. *)
Lemma unset_one_line_per_key_witness :
  Simple.main Fixtures.backwardRange (Fixtures.dotEnv ["A=1"; "B=2"]) Fixtures.unsetArgs
  ≡ₚ [Print "unset A"; Print "unset B"].
Proof.
  assert (Hparse : Simple.parseEnvFile (Fixtures.dotEnv ["A=1"; "B=2"]) ".env"
                   = Ok (<["B" := "2"]> (<["A" := "1"]> ∅))).
  { vm_compute. reflexivity. }
  pose proof (unset_one_line_per_key Fixtures.backwardRange backwardRange_order
                (Fixtures.dotEnv ["A=1"; "B=2"]) Fixtures.unsetArgs
                (<["B" := "2"]> (<["A" := "1"]> ∅)) Hparse eq_refl eq_refl) as Hperm.
  vm_compute in Hperm. vm_compute. exact Hperm.
Defined.

(** C7 on a readable file followed by a missing one. *)
Lemma main_unreadable_file_no_output_witness :
  ∃ err,
    ExportEnv.main Fixtures.forwardRange Fixtures.oneFile (λ _ _, false)
      {| ExportEnv.EnvFiles := ["ok.env"; "missing.env"]; ExportEnv.NoExpand := false;
         ExportEnv.Override := false; ExportEnv.Vars := []; ExportEnv.Cmd := [] |}
    = [LogError "Error loading env files" err].
Proof.
  apply (main_unreadable_file_no_output Fixtures.forwardRange Fixtures.oneFile
           (λ _ _, false) _ "missing.env").
  - simpl. apply elem_of_cons. right. apply elem_of_cons. by left.
  - left. reflexivity.
Defined.

(** C8 on the line [KEY=value]. *)
Lemma preview_roundtrip_witness :
  Simple.main Fixtures.forwardRange (Fixtures.dotEnv ["KEY=value"]) Fixtures.evalArgs
  = [Print "Evaluated environment variables:"; Print "KEY=value"].
Proof.
  apply (preview_roundtrip Fixtures.forwardRange forwardRange_order
           (Fixtures.dotEnv ["KEY=value"]) Fixtures.evalArgs "KEY" "value").
  - reflexivity.
  - vm_compute. reflexivity.
  - reflexivity.
  - reflexivity.
  - reflexivity.
Defined.

(** * Further properties of the code *)

(** ** Loading and merging, whatever the iteration order *)

(** X1. The map [loadEnvFiles] returns, or the error, does not depend on
    the order in which Go iterates over the variables of each file. *)
Theorem loadEnvFiles_order_independent
    (range1 range2 : EnvMap → list (string * string))
    (H1 : range_order range1) (H2 : range_order range2)
    (fs : filesystem) (files : list string) (override : bool) :
  ExportEnv.loadEnvFiles range1 fs files override
  = ExportEnv.loadEnvFiles range2 fs files override.
Proof.
  unfold ExportEnv.loadEnvFiles. generalize (∅ : EnvMap).
  induction (ExportEnv.defaultFiles files) as [|f rest IH]; intros e; simpl; [done|].
  destruct (ExportEnv.parseEnvFile fs f) as [m| |]; simpl; [|done|done].
  rewrite <- IH. f_equal. destruct override.
  - by rewrite !mergeFileVars_override.
  - by rewrite !mergeFileVars_keep.
Qed.

(** X2. [loadEnvFiles] stops at the first file that fails to parse and
    returns that file's error, whatever follows it in the list. *)
Theorem loadEnvFiles_first_error
    (range : EnvMap → list (string * string))
    (fs : filesystem) (files good rest : list string) (bad : string)
    (override : bool) (err : error) :
  ExportEnv.defaultFiles files = good ++ bad :: rest →
  Forall (λ f, ∃ m, ExportEnv.parseEnvFile fs f = Ok m) good →
  ExportEnv.parseEnvFile fs bad = Fail err →
  ExportEnv.loadEnvFiles range fs files override = Fail err.
Proof.
  intros Hfiles Hgood Hbad. unfold ExportEnv.loadEnvFiles. rewrite Hfiles.
  clear Hfiles. generalize (∅ : EnvMap).
  induction Hgood as [|f good [m Hm] _ IH]; intros e; simpl.
  - by rewrite Hbad.
  - rewrite Hm. simpl. apply IH.
Qed.

(** X3. With one file, and with no file given (the default [.env]), the
    result of [loadEnvFiles] is the result of parsing that file, error
    included, with or without override. *)
Theorem loadEnvFiles_single_file
    (range : EnvMap → list (string * string)) (Hrange : range_order range)
    (fs : filesystem) (f : string) (override : bool) :
  ExportEnv.loadEnvFiles range fs [f] override = ExportEnv.parseEnvFile fs f ∧
  ExportEnv.loadEnvFiles range fs [] override = ExportEnv.parseEnvFile fs ".env".
Proof.
  assert (Hone : ∀ g, ExportEnv.loadLoop range fs override [g] ∅
                      = ExportEnv.parseEnvFile fs g).
  { intros g. simpl. destruct (ExportEnv.parseEnvFile fs g) as [m| |]; simpl; [|done|done].
    f_equal. destruct override.
    - rewrite mergeFileVars_override by done. apply (right_id_L ∅ (∪)).
    - rewrite mergeFileVars_keep by done. apply (left_id_L ∅ (∪)). }
  split; apply Hone.
Qed.

(** X4. [loadEnvFiles] invents nothing: every binding of the merged map
    is a binding of one of the files. *)
Theorem loadEnvFiles_binding_from_file
    (range : EnvMap → list (string * string)) (Hrange : range_order range)
    (fs : filesystem) (files : list string) (override : bool)
    (merged : EnvMap) (k v : string) :
  ExportEnv.loadEnvFiles range fs files override = Ok merged →
  merged !! k = Some v →
  ∃ f m, f ∈ ExportEnv.defaultFiles files ∧
         ExportEnv.parseEnvFile fs f = Ok m ∧ m !! k = Some v.
Proof.
  unfold ExportEnv.loadEnvFiles. intros Hload Hk.
  assert (Hgen : ∀ fl e,
    ExportEnv.loadLoop range fs override fl e = Ok merged →
    e !! k = Some v ∨
    ∃ f m, f ∈ fl ∧ ExportEnv.parseEnvFile fs f = Ok m ∧ m !! k = Some v).
  { induction fl as [|f fl IH]; intros e He; simpl in He.
    - injection He as ->. by left.
    - destruct (ExportEnv.parseEnvFile fs f) as [m| |] eqn:Hf; simpl in He; [|done|done].
      destruct (IH _ He) as [Hm|(g & mg & Hg & Hpg & Hkg)].
      + assert (Hcases : e !! k = Some v ∨ m !! k = Some v).
        { destruct override.
          - rewrite mergeFileVars_override in Hm by done.
            apply lookup_union_Some_raw in Hm as [?|[_ ?]]; auto.
          - rewrite mergeFileVars_keep in Hm by done.
            apply lookup_union_Some_raw in Hm as [?|[_ ?]]; auto. }
        destruct Hcases as [?|?]; [by left|].
        right. exists f, m. split; [by left|done].
      + right. exists g, mg. split; [by right|done]. }
  destruct (Hgen _ _ Hload) as [Hempty|?]; [|done].
  by rewrite lookup_empty in Hempty.
Qed.

(** X5. [mergeEnvVars] touches only the keys given on the command line:
    every other key keeps the value (or the absence) it had after the
    files were loaded. *)
Theorem mergeEnvVars_other_keys_kept
    (range : EnvMap → list (string * string)) (Hrange : range_order range)
    (envVars cmdVars : EnvMap) (k : string) :
  cmdVars !! k = None →
  ExportEnv.mergeEnvVars range envVars cmdVars !! k = envVars !! k.
Proof.
  intros Hk. rewrite mergeEnvVars_union by done. by apply lookup_union_r.
Qed.

(** ** Command-line variables *)

Lemma SplitN2_no_equals (s : string) :
  str_forall (λ c, negb (isCode 61 c)) s = true → SplitN2 s = [s].
Proof.
  induction s as [|c s IH]; simpl; intros Hs; [done|].
  apply andb_true_iff in Hs as [Hc Hs]. apply negb_true_iff in Hc.
  rewrite Hc. by rewrite IH.
Qed.

Lemma parseCommandLineVars_step_other (m : EnvMap) (w k : string) :
  head (SplitN2 w) ≠ Some k →
  match SplitN2 w with
  | [k'; x] => <[k' := x]> m
  | [k'] => <[k' := EmptyString]> m
  | _ => m
  end !! k = m !! k.
Proof.
  intros Hw. destruct (SplitN2 w) as [|k' [|x [|]]]; simpl in Hw; try done.
  - apply lookup_insert_ne. congruence.
  - apply lookup_insert_ne. congruence.
Qed.

Lemma parseCommandLineVars_after (m : EnvMap) (after : list string) (k : string) :
  (∀ w, w ∈ after → head (SplitN2 w) ≠ Some k) →
  foldl (λ cmdVars v,
           match SplitN2 v with
           | [k'; x] => <[k' := x]> cmdVars
           | [k'] => <[k' := EmptyString]> cmdVars
           | _ => cmdVars
           end) m after !! k = m !! k.
Proof.
  revert m. induction after as [|w after IH]; intros m Hafter; simpl; [done|].
  rewrite IH.
  - apply parseCommandLineVars_step_other, Hafter. by left.
  - intros w' Hw'. apply Hafter. by right.
Qed.

(** X6. A [-v NAME] without an equals sign sets [NAME] to the empty
    string, unless a later [-v] gives the same key again. *)
Theorem parseCommandLineVars_bare_name
    (before after : list string) (name : string) :
  str_forall (λ c, negb (isCode 61 c)) name = true →
  (∀ w, w ∈ after → head (SplitN2 w) ≠ Some name) →
  ExportEnv.parseCommandLineVars (before ++ name :: after) !! name = Some EmptyString.
Proof.
  intros Hname Hafter. unfold ExportEnv.parseCommandLineVars.
  rewrite foldl_app. simpl. rewrite parseCommandLineVars_after by done.
  rewrite SplitN2_no_equals by done. apply lookup_insert_eq.
Qed.

(** X7. A [-v] argument is cut at its first equals sign only: the value
    keeps every later equals sign, and the key may be empty. *)
Theorem parseCommandLineVars_first_equals
    (before after : list string) (k v : string) :
  str_forall (λ c, negb (isCode 61 c)) k = true →
  (∀ w, w ∈ after → head (SplitN2 w) ≠ Some k) →
  ExportEnv.parseCommandLineVars (before ++ (k +:+ "=" +:+ v) :: after) !! k = Some v.
Proof.
  intros Hk Hafter. unfold ExportEnv.parseCommandLineVars.
  rewrite foldl_app. simpl. rewrite parseCommandLineVars_after by done.
  rewrite SplitN2_pair by done. apply lookup_insert_eq.
Qed.

(** ** Sorting and printing *)

(** X8. [sortEnvVars] lists every key exactly once, as [KEY=VALUE] with
    the key's value, in ascending order of the keys; the list is the same
    for every iteration order of the map. *)
Theorem sortEnvVars_sorted
    (range : EnvMap → list (string * string)) (Hrange : range_order range)
    (envVars : EnvMap) :
  ∃ keys,
    Sorted String.le keys ∧
    keys ≡ₚ (map_to_list envVars).*1 ∧
    ExportEnv.sortEnvVars range envVars
    = map (λ k, k +:+ "=" +:+ index envVars k) keys ∧
    ExportEnv.sortEnvVars range envVars
    = ExportEnv.sortEnvVars map_to_list envVars.
Proof.
  exists (merge_sort String.le (range envVars).*1).
  assert (Hperm : merge_sort String.le (range envVars).*1 ≡ₚ (map_to_list envVars).*1).
  { rewrite merge_sort_Permutation. apply fmap_Permutation, Hrange. }
  split; [apply (Sorted_merge_sort String.le)|].
  split; [done|]. split; [done|].
  unfold ExportEnv.sortEnvVars. f_equal.
  apply (Sorted_unique String.le).
  - apply (Sorted_merge_sort String.le).
  - apply (Sorted_merge_sort String.le).
  - rewrite Hperm. symmetry. apply merge_sort_Permutation.
Qed.

(** X9. [printExportableEnvVars] recovers key and value from [KEY=VALUE]
    by cutting at the first equals sign, so for a key without one the
    statement is [export KEY=] followed by the whole value in double
    quotes, each double quote of the value preceded by a backslash; equals
    signs in the value are kept. *)
Theorem printExportableEnvVars_entries (entries : list (string * string)) :
  Forall (λ kv, str_forall (λ c, negb (isCode 61 c)) kv.1 = true) entries →
  ExportEnv.printExportableEnvVars (map (λ kv, kv.1 +:+ "=" +:+ kv.2) entries)
  = map (λ kv, Print ("export " +:+ kv.1 +:+ "=" +:+ str dquote +:+
                      ReplaceAll kv.2 (str dquote) (String backslash (str dquote))
                      +:+ str dquote)) entries.
Proof.
  intros Hkeys. unfold ExportEnv.printExportableEnvVars. rewrite map_map.
  apply map_ext_Forall. eapply Forall_impl; [exact Hkeys|].
  intros [k v] Hk. simpl in *. by rewrite SplitN2_pair.
Qed.

(** ** Expansion *)

Lemma expandEnvVarsIn_fixed (order : list string) (envVars : EnvMap) :
  map_Forall (λ _ v, str_forall (λ c, negb (isCode 36 c)) v = true) envVars →
  ExportEnv.expandEnvVarsIn order envVars = envVars.
Proof.
  intros Hplain. unfold ExportEnv.expandEnvVarsIn.
  induction order as [|k order IH]; simpl; [done|].
  destruct (envVars !! k) as [v|] eqn:Hk; [|done].
  unfold Expand. rewrite expandFrom_no_dollar by (by apply (Hplain k)).
  by rewrite insert_id.
Qed.

(** X10. When no value contains a dollar sign, [expandEnvVars] leaves the
    map as it is, in whatever order the keys are visited. *)
Theorem expandEnvVars_no_dollar
    (order : list string) (envVars : EnvMap) :
  map_Forall (λ _ v, str_forall (λ c, negb (isCode 36 c)) v = true) envVars →
  ExportEnv.expandEnvVarsIn order envVars = envVars.
Proof. apply expandEnvVarsIn_fixed. Qed.

(** X11. [expandEnvVars] neither adds nor removes a key, in whatever
    order the keys are visited. *)
Theorem expandEnvVars_keeps_keys (order : list string) (envVars : EnvMap) :
  dom (ExportEnv.expandEnvVarsIn order envVars) = dom envVars.
Proof.
  unfold ExportEnv.expandEnvVarsIn. revert envVars.
  induction order as [|k order IH]; intros envVars; simpl; [done|].
  rewrite IH. destruct (envVars !! k) as [v|] eqn:Hk; [|done].
  apply dom_insert_lookup_L. by rewrite Hk.
Qed.

Lemma expandFrom_skip (mapping : string → string) (x rest : string) :
  expandFrom mapping (String.length x) (x +:+ rest) = expandFrom mapping 0 rest.
Proof.
  induction x as [|c x IH]; [by destruct rest|].
  change (String c x +:+ rest) with (String c (x +:+ rest)). exact IH.
Qed.

Lemma findBrace_after (name rest : string) (i : nat) :
  str_forall (λ c, negb (isCode 125 c)) name = true →
  findBrace (name +:+ "}" +:+ rest) i = Some (i + String.length name).
Proof.
  revert i. induction name as [|c name IH]; intros i Hname.
  - simpl. f_equal. lia.
  - simpl in Hname. apply andb_true_iff in Hname as [Hc Hname].
    apply negb_true_iff in Hc.
    change (String c name +:+ "}" +:+ rest) with (String c (name +:+ "}" +:+ rest)).
    cbn [findBrace]. rewrite Hc, IH by done. simpl. f_equal. lia.
Qed.

Lemma getShellName_braced (name rest : string) :
  name ≠ EmptyString →
  str_forall (λ c, negb (isCode 125 c)) name = true →
  getShellName ("{" +:+ name +:+ "}" +:+ rest) = (name, String.length name + 2).
Proof.
  intros Hne Hname.
  assert (Hfind : match findBrace (name +:+ "}" +:+ rest) 1 with
                  | Some i => if (i =? 1)%nat then (EmptyString, 2)
                              else (str_take (i - 1) (name +:+ "}" +:+ rest), S i)
                  | None => (EmptyString, 1)
                  end = (name, String.length name + 2)).
  { rewrite findBrace_after by done.
    destruct name as [|c name]; [done|]. cbn [String.length].
    replace (1 + S (String.length name) =? 1)%nat with false
      by (symmetry; apply Nat.eqb_neq; lia).
    replace (1 + S (String.length name) - 1) with (String.length (String c name))
      by (simpl; lia).
    rewrite str_take_app. f_equal. lia. }
  change ("{" +:+ name +:+ "}" +:+ rest) with (String "{" (name +:+ "}" +:+ rest)).
  cbn [getShellName]. change (isCode 123 "{") with true. cbv iota.
  destruct name as [|c1 [|c2 name]]; [done| |].
  - change (String c1 EmptyString +:+ "}" +:+ rest)
      with (String c1 (String "}" rest)) in *.
    cbv iota. change (isCode 125 "}") with true.
    destruct (isShellSpecialVar c1); [reflexivity|exact Hfind].
  - change (String c1 (String c2 name) +:+ "}" +:+ rest)
      with (String c1 (String c2 (name +:+ "}" +:+ rest))) in *.
    cbv iota.
    simpl in Hname. apply andb_true_iff in Hname as [_ Hname].
    apply andb_true_iff in Hname as [Hc2 _]. apply negb_true_iff in Hc2.
    rewrite Hc2, andb_false_r. exact Hfind.
Qed.

(** X12. A braced reference to a non-empty name without a closing brace
    in it is replaced by the value the map holds for the name, by nothing
    when the map has no such key, and the value put in is not expanded
    again. *)
Theorem expandVariables_reference (envVars : EnvMap) (name rest : string) :
  name ≠ EmptyString →
  str_forall (λ c, negb (isCode 125 c)) name = true →
  ExportEnv.expandVariables ("${" +:+ name +:+ "}" +:+ rest) envVars
  = index envVars name +:+ ExportEnv.expandVariables rest envVars.
Proof.
  intros Hne Hname. unfold ExportEnv.expandVariables, Expand.
  change ("${" +:+ name +:+ "}" +:+ rest)
    with (String "$" ("{" +:+ name +:+ "}" +:+ rest)).
  cbn [expandFrom]. change (isCode 36 "$") with true.
  change (String.eqb ("{" +:+ name +:+ "}" +:+ rest) EmptyString) with false.
  cbn [negb andb]. rewrite getShellName_braced by done.
  destruct (String.eqb name EmptyString) eqn:Heq.
  { by apply String.eqb_eq in Heq. }
  f_equal.
  assert (Hlen : String.length name + 2 = String.length ("{" +:+ name +:+ "}")).
  { change ("{" +:+ name +:+ "}") with (String "{" (name +:+ "}")).
    cbn [String.length]. rewrite str_length_app. simpl. lia. }
  rewrite Hlen.
  rewrite <- (expandFrom_skip _ ("{" +:+ name +:+ "}") rest).
  f_equal. change (String "{" (name +:+ "}" +:+ rest) = String "{" ((name +:+ "}") +:+ rest)).
  by rewrite str_app_assoc.
Qed.

(** ** [keyValueLine] and [parseLine] *)

Lemma str_app_empty_r (s : string) : s +:+ EmptyString = s.
Proof.
  induction s as [|c s IH]; [done|].
  change (String c (s +:+ EmptyString) = String c s). by f_equal.
Qed.

Lemma starGreedy_all (p : ascii → bool) pos s caps (k : cont) res :
  str_forall p s = true →
  k (pos + String.length s) EmptyString caps = Some res →
  starGreedy p pos s caps k = Some res.
Proof.
  intros Hs Hk. rewrite <- (str_app_empty_r s).
  by apply starGreedy_run.
Qed.

Lemma keyValueLine_match (K W : string) :
  Lines.isName K = true →
  str_forall cls_dot W = true →
  (∀ c t, W = String c t → cls_space c = false) →
  FindStringSubmatch ExportEnv.keyValueLine 2 (K +:+ "=" +:+ W)
  = Some [K +:+ "=" +:+ W; K; W].
Proof.
  intros HK HW Hhead.
  destruct K as [|c K]; [done|]. simpl in HK.
  apply andb_true_iff in HK as [Hc HK].
  assert (Hc' : cls_name c = true) by (unfold cls_name; by rewrite Hc).
  set (line := String c K +:+ "=" +:+ W).
  set (res := (<[0 := (0, String.length line)]>
               (<[2 := (S (String.length (String c K)), String.length line)]>
               (<[1 := (0, String.length (String c K))]> ∅))) : captures).
  assert (Hm : matchAt ExportEnv.keyValueLine 0 line = Some res).
  { unfold matchAt, ExportEnv.keyValueLine. cbn [seqs].
    subst line. cbn [rmatch Nat.eqb].
    change (String c K +:+ "=" +:+ W) with (String c (K +:+ "=" +:+ W)).
    rewrite starGreedy_stop.
    2:{ intros c' t' [= <- _]. by apply name_not_space. }
    cbv iota. rewrite Hc.
    apply (starGreedy_run cls_name 1 K ("=" +:+ W)); [done| |].
    { by intros c' t' [= <- _]. }
    rewrite starGreedy_stop by (by intros c' t' [= <- _]).
    change ("=" +:+ W) with (String "=" W). cbv iota.
    change (cls_is 61 "=") with true. cbv iota.
    rewrite starGreedy_stop by done.
    apply starGreedy_all; [done|].
    unfold res. do 3 f_equal.
    + simpl. rewrite !str_length_app. simpl. lia.
    + do 2 f_equal. simpl. rewrite !str_length_app. simpl. f_equal. lia. }
  unfold FindStringSubmatch. fold line. rewrite (search_found _ _ _ _ Hm).
  assert (H0 : res !! 0 = Some (0, String.length line)) by done.
  assert (H1 : res !! 1 = Some (0, String.length (String c K))) by done.
  assert (H2 : res !! 2 = Some (S (String.length (String c K)), String.length line))
    by done.
  f_equal. cbn [seq map]. unfold group. rewrite H0, H1, H2.
  rewrite !Nat.sub_0_r, !str_drop_0, str_take_all.
  f_equal. f_equal; [apply str_take_app|]. f_equal.
  unfold line. rewrite <- str_app_assoc.
  replace (S (String.length (String c K))) with (String.length (String c K +:+ "="))
    by (rewrite str_length_app; simpl; lia).
  rewrite str_drop_app.
  replace (_ - _) with (String.length W) by (rewrite !str_length_app; lia).
  apply str_take_all.
Qed.

Local Abbreviation noQuoteHash :=
  (λ c : ascii, negb (Ascii.eqb c dquote || Ascii.eqb c squote || Ascii.eqb c hash)).

Lemma str_forall_app (p : ascii → bool) (a b : string) :
  str_forall p (a +:+ b) = str_forall p a && str_forall p b.
Proof.
  induction a as [|c a IH]; [done|].
  change (String c a +:+ b) with (String c (a +:+ b)). cbn [str_forall].
  by rewrite IH, andb_assoc.
Qed.

Lemma str_take_drop (n : nat) (s : string) : str_take n s +:+ str_drop n s = s.
Proof.
  revert n. induction s as [|c s IH]; intros [|n]; try done.
  cbn [str_take str_drop].
  change (String c (str_take n s +:+ str_drop n s) = String c s). by rewrite IH.
Qed.

Lemma HasPrefix_char (s : string) (q : ascii) :
  HasPrefix s (str q) = match s with
                        | String c _ => Ascii.eqb c q
                        | EmptyString => false
                        end.
Proof.
  destruct s as [|c t]; [done|]. unfold HasPrefix, str. cbn [String.prefix].
  destruct (ascii_dec q c) as [->|Hne].
  - rewrite Ascii.eqb_refl. by destruct t.
  - symmetry. apply Ascii.eqb_neq. congruence.
Qed.

Lemma HasSuffix_char_app (b : string) (q : ascii) :
  HasSuffix (b +:+ str q) (str q) = true ∧ TrimSuffix (b +:+ str q) (str q) = b.
Proof.
  assert (Hsuf : HasSuffix (b +:+ str q) (str q) = true).
  { unfold HasSuffix. rewrite str_length_app. cbn [str String.length].
    replace (String.length b + 1 - 1) with (String.length b) by lia.
    rewrite str_drop_app, String.eqb_refl.
    replace (1 <=? String.length b + 1) with true by (symmetry; apply Nat.leb_le; lia).
    done. }
  split; [done|]. unfold TrimSuffix. rewrite Hsuf.
  rewrite str_length_app. cbn [str String.length].
  replace (String.length b + 1 - 1) with (String.length b) by lia.
  apply str_take_app.
Qed.

Lemma HasSuffix_char_absent (s : string) (q : ascii) :
  str_forall (λ c, negb (Ascii.eqb c q)) s = true → HasSuffix s (str q) = false.
Proof.
  intros Hs. destruct (HasSuffix s (str q)) eqn:Hsuf; [|done].
  unfold HasSuffix in Hsuf. apply andb_true_iff in Hsuf as [_ Heq].
  apply String.eqb_eq in Heq.
  rewrite <- (str_take_drop (String.length s - String.length (str q)) s) in Hs.
  rewrite Heq, str_forall_app in Hs. apply andb_true_iff in Hs as [_ Hq].
  simpl in Hq. by rewrite Ascii.eqb_refl in Hq.
Qed.

(** *** Well-formed UTF-8 *)

Lemma runeWidth_app (s r : string) (w : nat) :
  runeWidth s = S w → runeWidth (s +:+ r) = S w.
Proof.
  destruct s as [|b0 [|b1 [|b2 [|b3 s]]]]; [done| | | |];
    repeat match goal with
           | |- context [String ?c ?a +:+ ?b] =>
               change (String c a +:+ b) with (String c (a +:+ b))
           end;
    change (EmptyString +:+ r) with r; cbn [runeWidth];
    repeat (case_match; try done).
Qed.

Lemma validFrom_app (pending : nat) (a b : string) :
  validFrom pending a = true → ValidString b = true →
  validFrom pending (a +:+ b) = true.
Proof.
  intros Ha Hb. revert pending Ha.
  induction a as [|c a IH]; intros pending Ha.
  - apply Nat.eqb_eq in Ha as ->. exact Hb.
  - change (String c a +:+ b) with (String c (a +:+ b)).
    cbn [validFrom] in *. destruct pending as [|k]; [|by apply IH].
    destruct (runeWidth (String c a)) as [|w] eqn:Hw; [done|].
    change (String c (a +:+ b)) with (String c a +:+ b).
    rewrite (runeWidth_app _ _ _ Hw). by apply IH.
Qed.

Lemma ValidString_app (a b : string) :
  ValidString a = true → ValidString b = true → ValidString (a +:+ b) = true.
Proof. apply validFrom_app. Qed.

Lemma ValidString_low (s : string) :
  str_forall (λ c, N.ltb (code c) 128) s = true → ValidString s = true.
Proof.
  unfold ValidString. induction s as [|c s IH]; intros Hs; [done|].
  simpl in Hs. apply andb_true_iff in Hs as [Hc Hs].
  cbn [validFrom runeWidth]. rewrite Hc. by apply IH.
Qed.

(** *** The loop of [removeInlineComment] *)

(** Outside quotes, well-formed text without quote or [#] is copied. *)
Lemma commentLoop_copy (a r : string) (pending : nat) (quoteChar : ascii) :
  str_forall noQuoteHash a = true →
  validFrom pending a = true →
  ExportEnv.removeInlineCommentLoop (a +:+ r) pending false quoteChar
  = a +:+ ExportEnv.removeInlineCommentLoop r 0 false quoteChar.
Proof.
  revert pending. induction a as [|c a IH]; intros pending Ha Hv.
  - by apply Nat.eqb_eq in Hv as ->.
  - simpl in Ha. apply andb_true_iff in Ha as [Hc Ha].
    apply negb_true_iff in Hc. rewrite !orb_false_iff in Hc. destruct Hc as [[H1 H2] H3].
    cbn [validFrom] in Hv.
    change (String c a +:+ r) with (String c (a +:+ r)).
    cbn [ExportEnv.removeInlineCommentLoop].
    destruct pending as [|k].
    + destruct (runeWidth (String c a)) as [|w] eqn:Hw; [done|].
      change (String c (a +:+ r)) with (String c a +:+ r).
      rewrite (runeWidth_app _ _ _ Hw).
      change (String c a +:+ r) with (String c (a +:+ r)).
      destruct w as [|w].
      * rewrite H1, H2, H3, andb_false_r. cbn [orb andb negb].
        by rewrite IH.
      * by rewrite IH.
    + by rewrite IH.
Qed.

Lemma commentLoop_unquoted (a r : string) (quoteChar : ascii) :
  str_forall noQuoteHash a = true →
  ValidString a = true →
  ExportEnv.removeInlineCommentLoop (a +:+ r) 0 false quoteChar
  = a +:+ ExportEnv.removeInlineCommentLoop r 0 false quoteChar.
Proof. apply commentLoop_copy. Qed.

Lemma commentLoop_hash (r : string) (quoteChar : ascii) :
  ExportEnv.removeInlineCommentLoop (String hash r) 0 false quoteChar = EmptyString.
Proof.
  cbn [ExportEnv.removeInlineCommentLoop].
  change (runeWidth (String hash r)) with 1.
  change (Ascii.eqb hash dquote) with false. change (Ascii.eqb hash squote) with false.
  rewrite andb_false_r. reflexivity.
Qed.

(** Inside quotes, well-formed text is copied up to the closing quote. *)
Lemma commentLoop_inside (body r : string) (pending : nat) (q : ascii) :
  (code q < 128)%N →
  str_forall (λ c, negb (Ascii.eqb c q)) body = true →
  validFrom pending body = true →
  ExportEnv.removeInlineCommentLoop (body +:+ String q r) pending true q
  = body +:+ String q (ExportEnv.removeInlineCommentLoop r 0 false q).
Proof.
  intros Hq. revert pending. induction body as [|c body IH]; intros pending Hb Hv.
  - apply Nat.eqb_eq in Hv as ->.
    change (EmptyString +:+ String q r) with (String q r).
    cbn [ExportEnv.removeInlineCommentLoop runeWidth].
    replace (N.ltb (code q) 128) with true by (symmetry; by apply N.ltb_lt).
    rewrite Ascii.eqb_refl. cbn [negb andb]. rewrite andb_false_r. reflexivity.
  - simpl in Hb. apply andb_true_iff in Hb as [Hc Hb]. apply negb_true_iff in Hc.
    cbn [validFrom] in Hv.
    change (String c body +:+ String q r) with (String c (body +:+ String q r)).
    cbn [ExportEnv.removeInlineCommentLoop].
    destruct pending as [|k].
    + destruct (runeWidth (String c body)) as [|w] eqn:Hw; [done|].
      change (String c (body +:+ String q r)) with (String c body +:+ String q r).
      rewrite (runeWidth_app _ _ _ Hw).
      change (String c body +:+ String q r) with (String c (body +:+ String q r)).
      destruct w as [|w].
      * rewrite Hc. cbn [negb andb]. rewrite !andb_false_r. cbv iota.
        by rewrite IH.
      * by rewrite IH.
    + by rewrite IH.
Qed.

Lemma commentLoop_quoted (body r : string) (q : ascii) :
  (code q < 128)%N →
  str_forall (λ c, negb (Ascii.eqb c q)) body = true →
  ValidString body = true →
  ExportEnv.removeInlineCommentLoop (body +:+ String q r) 0 true q
  = body +:+ String q (ExportEnv.removeInlineCommentLoop r 0 false q).
Proof. apply commentLoop_inside. Qed.

Lemma commentLoop_inside_open (body : string) (pending : nat) (q : ascii) :
  str_forall (λ c, negb (Ascii.eqb c q)) body = true →
  validFrom pending body = true →
  ExportEnv.removeInlineCommentLoop body pending true q = body.
Proof.
  revert pending. induction body as [|c body IH]; intros pending Hb Hv; [done|].
  simpl in Hb. apply andb_true_iff in Hb as [Hc Hb]. apply negb_true_iff in Hc.
  cbn [validFrom] in Hv. cbn [ExportEnv.removeInlineCommentLoop].
  destruct pending as [|k].
  - destruct (runeWidth (String c body)) as [|[|w]] eqn:Hw; [done| |].
    + rewrite Hc. cbn [negb andb]. rewrite !andb_false_r. cbv iota. by rewrite IH.
    + by rewrite IH.
  - by rewrite IH.
Qed.

Lemma commentLoop_open_quote (body : string) (q : ascii) :
  str_forall (λ c, negb (Ascii.eqb c q)) body = true →
  ValidString body = true →
  ExportEnv.removeInlineCommentLoop body 0 true q = body.
Proof. apply commentLoop_inside_open. Qed.

Lemma commentLoop_enter (r : string) (q quoteChar : ascii) :
  q = dquote ∨ q = squote →
  ExportEnv.removeInlineCommentLoop (String q r) 0 false quoteChar
  = String q (ExportEnv.removeInlineCommentLoop r 0 true q).
Proof. intros [->| ->]; reflexivity. Qed.

(** A byte that starts no well-formed rune, FF for one, comes out as
    [runeError]; the two bytes of U+00E9 come out as they are. *)
Lemma removeInlineComment_malformed_byte :
  ExportEnv.removeInlineComment (String (ascii_of_nat 255) "x") = runeError +:+ "x" ∧
  ExportEnv.removeInlineComment (String (ascii_of_nat 195) (str (ascii_of_nat 169)))
  = String (ascii_of_nat 195) (str (ascii_of_nat 169)).
Proof. vm_compute. done. Qed.

(** Whatever the bytes are, inside quotes and without the closing quote
    the loop writes no quote of that kind: it copies bytes of the text or
    writes [runeError]. *)
Lemma commentLoop_no_quote (body : string) (pending : nat) (q : ascii) :
  q = dquote ∨ q = squote →
  str_forall (λ c, negb (Ascii.eqb c q)) body = true →
  str_forall (λ c, negb (Ascii.eqb c q))
    (ExportEnv.removeInlineCommentLoop body pending true q) = true.
Proof.
  intros Hq. revert pending. induction body as [|c body IH]; intros pending Hb; [done|].
  simpl in Hb. apply andb_true_iff in Hb as [Hc Hb].
  cbn [ExportEnv.removeInlineCommentLoop].
  destruct pending as [|k].
  - destruct (runeWidth (String c body)) as [|[|w]].
    + rewrite str_forall_app, IH by done.
      by destruct Hq as [->| ->].
    + apply negb_true_iff in Hc as Hc'. rewrite Hc'.
      cbn [negb andb]. rewrite !andb_false_r. cbv iota.
      cbn [str_forall]. by rewrite Hc, IH.
    + cbn [str_forall]. by rewrite Hc, IH.
  - cbn [str_forall]. by rewrite Hc, IH.
Qed.

(** *** More on [TrimSpace] *)

Lemma asciiSpace_low (c : ascii) : isAsciiSpace c = true → (code c < 128)%N.
Proof.
  unfold isAsciiSpace, isCode.
  rewrite orb_true_iff, andb_true_iff, !N.leb_le, N.eqb_eq. lia.
Qed.

Lemma spaceWidth_extend x e y :
  x ≠ [] → spaceWidth x = 0 → (code e < 128)%N → spaceWidth (x ++ e :: y) = 0.
Proof.
  intros Hx Hw He. destruct x as [|a [|b [|c x]]]; [done| | |].
  - simpl in *. destruct (isAsciiSpace a); [done|].
    rewrite isSpace2_low_r by done. destruct y; [done|].
    by rewrite isSpace3_low_2.
  - simpl in *. destruct (isAsciiSpace a); [done|].
    destruct (isSpace2 a b); [done|]. by rewrite isSpace3_low_3.
  - exact Hw.
Qed.

Lemma dropRunes_spaces (l r : list ascii) :
  Forall (λ c, isAsciiSpace c = true) l →
  dropRunes spaceWidthRev 0 (l ++ r) = dropRunes spaceWidthRev 0 r.
Proof.
  induction 1 as [|a l Ha _ IH]; [done|].
  change ((a :: l) ++ r) with (a :: (l ++ r)).
  cbn [dropRunes spaceWidthRev]. by rewrite Ha.
Qed.

Lemma TrimSpace_trailing_blanks (x sp : string) :
  TrimSpace x = x → x ≠ EmptyString →
  str_forall isAsciiSpace sp = true →
  TrimSpace (x +:+ sp) = x.
Proof.
  intros Hx Hne Hsp.
  destruct (TrimSpace_fixed_inv x Hx) as [?|[Hl Hr]]; [done|].
  apply str_forall_Forall in Hsp.
  assert (Hxl : list_ascii_of_string x ≠ []) by (by destruct x).
  unfold TrimSpace. rewrite list_ascii_app.
  assert (Hleft : trimLeft (list_ascii_of_string x ++ list_ascii_of_string sp)
                  = list_ascii_of_string x ++ list_ascii_of_string sp).
  { apply dropRunes_fixed.
    destruct (list_ascii_of_string sp) as [|e y] eqn:Hsplist.
    - by rewrite app_nil_r.
    - apply spaceWidth_extend; [done|done|].
      apply asciiSpace_low. by apply Forall_cons in Hsp as [? _]. }
  rewrite Hleft. unfold trimRight. rewrite reverse_app.
  rewrite dropRunes_spaces by (by apply Forall_reverse).
  rewrite (dropRunes_fixed _ _ Hr), reverse_involutive.
  apply string_of_list_ascii_of_string.
Qed.

(** A text that starts and ends with bytes below 128 that are no white
    space is left alone. *)
Lemma TrimSpace_between (a b : ascii) (body : string) :
  isAsciiSpace a = false → (code a < 128)%N →
  isAsciiSpace b = false → (code b < 128)%N →
  TrimSpace (String a (body +:+ str b)) = String a (body +:+ str b).
Proof.
  intros Ha1 Ha2 Hb1 Hb2. apply TrimSpace_fixed.
  - by apply spaceWidth_low.
  - change (list_ascii_of_string (String a (body +:+ str b)))
      with (a :: list_ascii_of_string (body +:+ str b)).
    rewrite list_ascii_app, reverse_cons, reverse_app. simpl.
    by apply spaceWidthRev_low.
Qed.

Lemma dropRunes_Forall (P : ascii → Prop) (width : list ascii → nat) (skip : nat)
    (l : list ascii) :
  Forall P l → Forall P (dropRunes width skip l).
Proof.
  intros Hl. revert skip. induction Hl as [|a l Ha Hl IH]; intros skip; [done|].
  cbn [dropRunes]. destruct skip; [|apply IH].
  destruct (width (a :: l)); [by constructor|apply IH].
Qed.

(** Trimming at the end stops at a byte below 128 that is no white
    space, whatever stands behind it. *)
Lemma dropRunes_keeps_last (P : ascii → Prop) (l : list ascii) (q : ascii) (skip : nat) :
  isAsciiSpace q = false → (code q < 128)%N → skip ≤ length l → Forall P l →
  ∃ l', dropRunes spaceWidthRev skip (l ++ [q]) = l' ++ [q] ∧ Forall P l'.
Proof.
  intros Hs Hq. revert skip. induction l as [|a l IH]; intros skip Hskip Hl.
  - assert (skip = 0) as -> by (simpl in Hskip; lia).
    exists []. simpl. by rewrite Hs.
  - apply Forall_cons in Hl as [Ha Hl].
    change ((a :: l) ++ [q]) with (a :: (l ++ [q])). cbn [dropRunes].
    destruct skip as [|k]; [|apply IH; [simpl in Hskip; lia|done]].
    destruct (spaceWidthRev (a :: l ++ [q])) as [|k] eqn:Hw.
    + exists (a :: l). split; [done|by constructor].
    + apply IH; [|done]. simpl in Hw.
      destruct (isAsciiSpace a); [injection Hw as <-; lia|].
      destruct l as [|b [|c l]]; simpl in Hw.
      * by rewrite isSpace2_low_l in Hw.
      * destruct (isSpace2 b a); [injection Hw as <-; simpl; lia|].
        by rewrite isSpace3_low_1 in Hw.
      * destruct (isSpace2 b a); [injection Hw as <-; simpl; lia|].
        destruct (isSpace3 c b a); [injection Hw as <-; simpl; lia|done].
Qed.

Lemma TrimSpace_keeps_head (p : ascii → bool) (q : ascii) (x : string) :
  isAsciiSpace q = false → (code q < 128)%N →
  str_forall p x = true →
  ∃ x', TrimSpace (String q x) = String q x' ∧ str_forall p x' = true.
Proof.
  intros Hs Hq Hx. unfold TrimSpace, trimLeft, trimRight.
  change (list_ascii_of_string (String q x)) with (q :: list_ascii_of_string x).
  rewrite (dropRunes_fixed _ _ (spaceWidth_low q _ Hs Hq)), reverse_cons.
  apply str_forall_Forall, Forall_reverse in Hx.
  destruct (dropRunes_keeps_last _ _ q 0 Hs Hq (Nat.le_0_l _) Hx) as (l' & Hl' & HP).
  rewrite Hl', reverse_app.
  exists (string_of_list_ascii (reverse l')). split; [done|].
  apply str_forall_Forall. rewrite list_ascii_of_string_of_list_ascii.
  by apply Forall_reverse.
Qed.

Lemma quote_low (q : ascii) :
  q = dquote ∨ q = squote → isAsciiSpace q = false ∧ (code q < 128)%N.
Proof. by intros [->| ->]. Qed.

(** ** Inline comments *)

Lemma removeInlineComment_plain (a : string) :
  str_forall noQuoteHash a = true →
  ValidString a = true →
  ExportEnv.removeInlineComment a = TrimSpace a.
Proof.
  intros Ha Hv. unfold ExportEnv.removeInlineComment.
  rewrite <- (str_app_empty_r a) at 1.
  by rewrite commentLoop_unquoted, str_app_empty_r.
Qed.

Lemma removeInlineComment_cut (a rest : string) :
  str_forall noQuoteHash a = true →
  ValidString a = true →
  ExportEnv.removeInlineComment (a +:+ String hash rest) = TrimSpace a.
Proof.
  intros Ha Hv. unfold ExportEnv.removeInlineComment.
  by rewrite commentLoop_unquoted, commentLoop_hash, str_app_empty_r.
Qed.

Lemma removeInlineComment_in_quotes (q : ascii) (body : string) :
  q = dquote ∨ q = squote →
  str_forall (λ c, negb (Ascii.eqb c q)) body = true →
  ValidString body = true →
  ExportEnv.removeInlineComment (String q (body +:+ str q))
  = String q (body +:+ str q).
Proof.
  intros Hq Hbody Hv. unfold ExportEnv.removeInlineComment, str.
  destruct (quote_low q Hq).
  rewrite commentLoop_enter, commentLoop_quoted by done.
  by apply TrimSpace_between.
Qed.

Lemma removeInlineComment_unclosed (q : ascii) (a b : string) :
  q = dquote ∨ q = squote →
  str_forall noQuoteHash a = true →
  str_forall (λ c, negb (Ascii.eqb c q)) b = true →
  ValidString a = true →
  ValidString b = true →
  ExportEnv.removeInlineComment (a +:+ String q b) = TrimSpace (a +:+ String q b).
Proof.
  intros Hq Ha Hb Hva Hvb. unfold ExportEnv.removeInlineComment.
  by rewrite commentLoop_unquoted, commentLoop_enter, commentLoop_open_quote.
Qed.

(** A value that opens a quote and does not close it keeps the quote in
    front and gets no quote of that kind behind it, also where its bytes
    are not well formed and are written as [runeError]. *)
Lemma removeInlineComment_opening (q : ascii) (body : string) :
  q = dquote ∨ q = squote →
  str_forall (λ c, negb (Ascii.eqb c q)) body = true →
  ∃ v, ExportEnv.removeInlineComment (String q body) = String q v ∧
       str_forall (λ c, negb (Ascii.eqb c q)) v = true.
Proof.
  intros Hq Hbody. unfold ExportEnv.removeInlineComment.
  rewrite commentLoop_enter by done.
  destruct (quote_low q Hq) as [Hs Hlow].
  apply TrimSpace_keeps_head; [done|done|].
  by apply commentLoop_no_quote.
Qed.

(** X13. In a value of well-formed UTF-8 without quote characters,
    [removeInlineComment] cuts at the first [#] and trims what is left,
    whatever bytes follow the [#]; without a [#] it only trims. *)
Theorem removeInlineComment_unquoted (a rest : string) :
  str_forall noQuoteHash a = true →
  ValidString a = true →
  ExportEnv.removeInlineComment (a +:+ String hash rest) = TrimSpace a ∧
  ExportEnv.removeInlineComment a = TrimSpace a.
Proof.
  intros Ha Hv. split.
  - by apply removeInlineComment_cut.
  - by apply removeInlineComment_plain.
Qed.

(** X14. In well-formed UTF-8, a [#] between a pair of quotes of the same
    kind is kept; the comment that follows the closing quote is cut,
    whatever its bytes. *)
Theorem removeInlineComment_quoted (q : ascii) (body a rest : string) :
  q = dquote ∨ q = squote →
  str_forall (λ c, negb (Ascii.eqb c q)) body = true →
  str_forall noQuoteHash a = true →
  ValidString body = true →
  ValidString a = true →
  ExportEnv.removeInlineComment
    (String q (body +:+ String q (a +:+ String hash rest)))
  = TrimSpace (String q (body +:+ String q a)).
Proof.
  intros Hq Hbody Ha Hvb Hva. unfold ExportEnv.removeInlineComment.
  destruct (quote_low q Hq).
  rewrite commentLoop_enter, commentLoop_quoted by done.
  by rewrite commentLoop_unquoted, commentLoop_hash, str_app_empty_r.
Qed.

(** X15. In well-formed UTF-8, a quote that is never closed, an apostrophe
    in an unquoted value for one, switches the cutting off: everything
    behind it is kept, a [#] included. *)
Theorem removeInlineComment_open_quote (q : ascii) (a b : string) :
  q = dquote ∨ q = squote →
  str_forall noQuoteHash a = true →
  str_forall (λ c, negb (Ascii.eqb c q)) b = true →
  ValidString a = true →
  ValidString b = true →
  ExportEnv.removeInlineComment (a +:+ String q b) = TrimSpace (a +:+ String q b).
Proof. apply removeInlineComment_unclosed. Qed.

(** ** [parseLine] on the kinds of value *)

Lemma unquoted_no_quote_prefix (V : string) :
  str_forall noQuoteHash V = true →
  HasPrefix V (str dquote) || HasPrefix V (str squote) = false.
Proof.
  intros HV. rewrite !HasPrefix_char. destruct V as [|c V]; [done|].
  simpl in HV. apply andb_true_iff in HV as [Hc _]. apply negb_true_iff in Hc.
  rewrite !orb_false_iff in Hc. destruct Hc as [[-> ->] _]. done.
Qed.

Lemma parseLine_unquoted (K V : string) :
  Lines.isName K = true →
  str_forall noQuoteHash V = true →
  str_forall cls_dot V = true →
  TrimSpace V = V →
  ValidString V = true →
  ExportEnv.parseLine (K +:+ "=" +:+ V) = (K, V, false, nul).
Proof.
  intros HK Hplain Hdot HV Hvalid. unfold ExportEnv.parseLine.
  rewrite keyValueLine_match; [|done|done|].
  2:{ intros c t. by apply trimmed_head_not_space. }
  rewrite removeInlineComment_plain, HV by done.
  by rewrite unquoted_no_quote_prefix.
Qed.

Lemma blank_char (c : ascii) :
  isCode 32 c || isCode 9 c = true → c = ascii_of_nat 32 ∨ c = ascii_of_nat 9.
Proof.
  change (isCode 32 c) with (isCode (N.of_nat 32) c).
  change (isCode 9 c) with (isCode (N.of_nat 9) c).
  rewrite !isCode_eqb by lia. rewrite orb_true_iff, !Ascii.eqb_eq. done.
Qed.

Lemma blank_asciiSpace (sp : string) :
  str_forall (λ c, isCode 32 c || isCode 9 c) sp = true →
  str_forall isAsciiSpace sp = true ∧ str_forall noQuoteHash sp = true ∧
  str_forall cls_dot sp = true.
Proof.
  intros Hsp. repeat split; revert Hsp; apply str_forall_impl; intros c Hc;
    by destruct (blank_char c Hc) as [->| ->].
Qed.

Lemma blank_valid (sp : string) :
  str_forall (λ c, isCode 32 c || isCode 9 c) sp = true → ValidString sp = true.
Proof.
  intros Hsp. apply ValidString_low. revert Hsp. apply str_forall_impl.
  intros c Hc. by destruct (blank_char c Hc) as [->| ->].
Qed.

(** X16. [KEY=VALUE # comment]: for a key that is a name and a non-empty
    trimmed value of well-formed UTF-8 without quote characters,
    [parseLine] returns the key and the value; the blanks, the [#] and
    the comment are gone. *)
Theorem parseLine_inline_comment (K V sp comment : string) :
  Lines.isName K = true →
  V ≠ EmptyString →
  TrimSpace V = V →
  ValidString V = true →
  str_forall noQuoteHash V = true →
  str_forall cls_dot V = true →
  str_forall (λ c, isCode 32 c || isCode 9 c) sp = true →
  str_forall cls_dot comment = true →
  ExportEnv.parseLine (K +:+ "=" +:+ (V +:+ sp) +:+ String hash comment)
  = (K, V, false, nul).
Proof.
  intros HK Hne HV Hvalid Hplain Hdot Hsp Hcomment.
  destruct (blank_asciiSpace sp Hsp) as (Hsp1 & Hsp2 & Hsp3).
  unfold ExportEnv.parseLine.
  rewrite keyValueLine_match; [|done| |].
  - rewrite removeInlineComment_cut.
    + rewrite TrimSpace_trailing_blanks by done.
      by rewrite unquoted_no_quote_prefix.
    + rewrite str_forall_app. by rewrite Hplain, Hsp2.
    + apply ValidString_app; [done|by apply blank_valid].
  - rewrite !str_forall_app. cbn [str_forall]. by rewrite Hdot, Hsp3, Hcomment.
  - intros c t Heq. destruct V as [|v V]; [done|].
    injection Heq as <- _. by apply (trimmed_head_not_space (String v V) v V).
Qed.

(** X17. A value of well-formed UTF-8 in double or single quotes on one
    line: [parseLine] returns what stands between the quotes as it is,
    white space at its ends and [#] included, and reports no quote
    rune. *)
Theorem parseLine_quoted (K body : string) (q : ascii) :
  Lines.isName K = true →
  q = dquote ∨ q = squote →
  str_forall (λ c, negb (Ascii.eqb c q)) body = true →
  str_forall cls_dot body = true →
  ValidString body = true →
  ExportEnv.parseLine (K +:+ "=" +:+ String q (body +:+ str q))
  = (K, body, false, nul).
Proof.
  intros HK Hq Hbody Hdot Hvalid. unfold ExportEnv.parseLine.
  assert (Hqdot : cls_dot q = true) by (by destruct Hq as [->| ->]).
  assert (Hqsp : cls_space q = false) by (by destruct Hq as [->| ->]).
  rewrite keyValueLine_match; [|done| |].
  - rewrite removeInlineComment_in_quotes by done.
    rewrite !HasPrefix_char.
    replace (Ascii.eqb q dquote || Ascii.eqb q squote) with true
      by (by destruct Hq as [->| ->]).
    unfold TrimPrefix. rewrite HasPrefix_char, Ascii.eqb_refl.
    cbn [str String.length str_drop].
    destruct (HasSuffix_char_app body q) as [-> ->]. done.
  - cbn [str_forall]. rewrite str_forall_app. simpl. by rewrite Hqdot, Hdot.
  - by intros c t [= <- _].
Qed.

(** Whatever its bytes, a value that opens a quote and does not close it
    on the line starts a multiline value. *)
Lemma parseLine_opens_multiline (K body : string) (q : ascii) :
  Lines.isName K = true →
  q = dquote ∨ q = squote →
  str_forall (λ c, negb (Ascii.eqb c q)) body = true →
  str_forall cls_dot body = true →
  ∃ v, ExportEnv.parseLine (K +:+ "=" +:+ String q body) = (K, v, true, q).
Proof.
  intros HK Hq Hbody Hdot. unfold ExportEnv.parseLine.
  assert (Hqdot : cls_dot q = true) by (by destruct Hq as [->| ->]).
  assert (Hqsp : cls_space q = false) by (by destruct Hq as [->| ->]).
  rewrite keyValueLine_match; [|done| |].
  - destruct (removeInlineComment_opening q body Hq Hbody) as (v & -> & Hv).
    exists v. rewrite !HasPrefix_char.
    replace (Ascii.eqb q dquote || Ascii.eqb q squote) with true
      by (by destruct Hq as [->| ->]).
    unfold TrimPrefix. rewrite HasPrefix_char, Ascii.eqb_refl.
    cbn [str String.length str_drop].
    by rewrite HasSuffix_char_absent.
  - cbn [str_forall]. by rewrite Hqdot, Hdot.
  - by intros c t [= <- _].
Qed.

Lemma parseLine_opens_quote (K body : string) (q : ascii) :
  Lines.isName K = true →
  q = dquote ∨ q = squote →
  str_forall (λ c, negb (Ascii.eqb c q)) body = true →
  str_forall cls_dot body = true →
  TrimSpace (String q body) = String q body →
  ValidString body = true →
  ExportEnv.parseLine (K +:+ "=" +:+ String q body) = (K, body, true, q).
Proof.
  intros HK Hq Hbody Hdot Htrim Hvalid. unfold ExportEnv.parseLine.
  assert (Hqdot : cls_dot q = true) by (by destruct Hq as [->| ->]).
  assert (Hqsp : cls_space q = false) by (by destruct Hq as [->| ->]).
  rewrite keyValueLine_match; [|done| |].
  - pose proof (removeInlineComment_unclosed q EmptyString body Hq eq_refl Hbody
                  eq_refl Hvalid) as Hrm.
    change (EmptyString +:+ String q body) with (String q body) in Hrm.
    rewrite Hrm, Htrim.
    rewrite !HasPrefix_char.
    replace (Ascii.eqb q dquote || Ascii.eqb q squote) with true
      by (by destruct Hq as [->| ->]).
    unfold TrimPrefix. rewrite HasPrefix_char, Ascii.eqb_refl.
    cbn [str String.length str_drop].
    by rewrite HasSuffix_char_absent.
  - cbn [str_forall]. by rewrite Hqdot, Hdot.
  - by intros c t [= <- _].
Qed.

(** X18. A value of well-formed UTF-8 that opens a quote and does not
    close it on the line starts a multiline value: [parseLine] returns
    what follows the quote, the multiline flag and the quote rune. *)
Theorem parseLine_multiline_start (K body : string) (q : ascii) :
  Lines.isName K = true →
  q = dquote ∨ q = squote →
  str_forall (λ c, negb (Ascii.eqb c q)) body = true →
  str_forall cls_dot body = true →
  TrimSpace (String q body) = String q body →
  ValidString body = true →
  ExportEnv.parseLine (K +:+ "=" +:+ String q body) = (K, body, true, q).
Proof. apply parseLine_opens_quote. Qed.

(** ** [parseEnvFile] line by line *)

Local Abbreviation stateAfter lines :=
  (foldl ExportEnv.parseStep ExportEnv.initState lines).

(** X19. A line that is blank or starts with [#] after trimming changes
    nothing, wherever it stands: also between the lines of a multiline
    value, where it is not made part of the value. *)
Theorem parseLines_skips_comments (before after : list string) (text : string) :
  ExportEnv.isCommentOrEmpty (TrimSpace text) = true →
  ExportEnv.parseLines (before ++ text :: after)
  = ExportEnv.parseLines (before ++ after).
Proof.
  intros Hskip. unfold ExportEnv.parseLines. rewrite !foldl_app. simpl.
  unfold ExportEnv.parseStep at 2. by rewrite Hskip.
Qed.

Lemma parseStep_assign (st : ExportEnv.ParseState) (K V line : string) :
  ExportEnv.multiline st = false →
  Lines.isName K = true →
  TrimSpace (K +:+ line) = K +:+ line →
  ExportEnv.parseLine (K +:+ line) = (K, V, false, nul) →
  ExportEnv.parseStep st (K +:+ line)
  = {| ExportEnv.key := K; ExportEnv.value := ExportEnv.value st;
       ExportEnv.multiline := false; ExportEnv.quoteType := nul;
       ExportEnv.envVars := <[K := V]> (ExportEnv.envVars st) |}.
Proof.
  intros Hml HK Htrim Hparse. unfold ExportEnv.parseStep.
  rewrite Htrim. unfold ExportEnv.isCommentOrEmpty.
  rewrite name_not_comment, Hml, Hparse by done. done.
Qed.

Lemma parseLines_assign (before : list string) (K V : string) :
  ExportEnv.multiline (stateAfter before) = false →
  Lines.isName K = true →
  TrimSpace V = V →
  ValidString V = true →
  str_forall noQuoteHash V = true →
  str_forall cls_dot V = true →
  ExportEnv.parseLines (before ++ [K +:+ "=" +:+ V])
  = <[K := V]> (ExportEnv.parseLines before).
Proof.
  intros Hml HK HV Hvalid Hplain Hdot. unfold ExportEnv.parseLines.
  rewrite foldl_app. simpl.
  rewrite (parseStep_assign _ K V); [done|done|done| |].
  - by apply TrimSpace_line.
  - by apply parseLine_unquoted.
Qed.

(** X20. Outside a multiline value, a line [KEY=VALUE] with a name for
    key and a trimmed value of well-formed UTF-8 without quote characters
    or [#] binds the key to the value: an earlier value of the key is
    replaced, every other key is kept. *)
Theorem parseLines_assignment (before : list string) (K V : string) :
  ExportEnv.multiline (stateAfter before) = false →
  Lines.isName K = true →
  TrimSpace V = V →
  ValidString V = true →
  str_forall noQuoteHash V = true →
  str_forall cls_dot V = true →
  ExportEnv.parseLines (before ++ [K +:+ "=" +:+ V])
  = <[K := V]> (ExportEnv.parseLines before).
Proof. apply parseLines_assign. Qed.

Lemma TrimSpace_open_quote (K body : string) (q : ascii) :
  Lines.isName K = true →
  q = dquote ∨ q = squote →
  TrimSpace (String q body) = String q body →
  TrimSpace (K +:+ "=" +:+ String q body) = K +:+ "=" +:+ String q body.
Proof. intros HK Hq Hbody. by apply TrimSpace_line. Qed.

Lemma parseStep_open (st : ExportEnv.ParseState) (K body : string) (q : ascii) :
  ExportEnv.multiline st = false →
  Lines.isName K = true →
  q = dquote ∨ q = squote →
  str_forall (λ c, negb (Ascii.eqb c q)) body = true →
  str_forall cls_dot body = true →
  TrimSpace (String q body) = String q body →
  ValidString body = true →
  ExportEnv.parseStep st (K +:+ "=" +:+ String q body)
  = {| ExportEnv.key := K; ExportEnv.value := body;
       ExportEnv.multiline := true; ExportEnv.quoteType := q;
       ExportEnv.envVars := ExportEnv.envVars st |}.
Proof.
  intros Hml HK Hq Hbody Hdot Htrim Hvalid. unfold ExportEnv.parseStep.
  rewrite TrimSpace_open_quote by done. unfold ExportEnv.isCommentOrEmpty.
  rewrite name_not_comment, Hml by done.
  pose proof (parseLine_opens_quote K body q HK Hq Hbody Hdot Htrim Hvalid) as Hparse.
  by rewrite Hparse.
Qed.

(** Whatever the bytes of the value, the line that opens the quote leaves
    the map as it is. *)
Lemma parseStep_open_envVars (st : ExportEnv.ParseState) (K body : string) (q : ascii) :
  ExportEnv.multiline st = false →
  Lines.isName K = true →
  q = dquote ∨ q = squote →
  str_forall (λ c, negb (Ascii.eqb c q)) body = true →
  str_forall cls_dot body = true →
  TrimSpace (String q body) = String q body →
  ExportEnv.envVars (ExportEnv.parseStep st (K +:+ "=" +:+ String q body))
  = ExportEnv.envVars st.
Proof.
  intros Hml HK Hq Hbody Hdot Htrim. unfold ExportEnv.parseStep.
  rewrite TrimSpace_open_quote by done. unfold ExportEnv.isCommentOrEmpty.
  rewrite name_not_comment, Hml by done.
  destruct (parseLine_opens_multiline K body q HK Hq Hbody Hdot) as [v Hparse].
  by rewrite Hparse.
Qed.

(** X21. A quoted value that is opened on the last line and never closed
    is lost: the file parses as if the line were not there. *)
Theorem parseLines_unclosed_quote_lost
    (before : list string) (K body : string) (q : ascii) :
  ExportEnv.multiline (stateAfter before) = false →
  Lines.isName K = true →
  q = dquote ∨ q = squote →
  str_forall (λ c, negb (Ascii.eqb c q)) body = true →
  str_forall cls_dot body = true →
  TrimSpace (String q body) = String q body →
  ExportEnv.parseLines (before ++ [K +:+ "=" +:+ String q body])
  = ExportEnv.parseLines before.
Proof.
  intros Hml HK Hq Hbody Hdot Htrim. unfold ExportEnv.parseLines.
  rewrite foldl_app. simpl. by apply parseStep_open_envVars.
Qed.

Lemma noQuoteHash_no_quote (q : ascii) (s : string) :
  q = dquote ∨ q = squote →
  str_forall noQuoteHash s = true →
  str_forall (λ c, negb (Ascii.eqb c q)) s = true.
Proof.
  intros Hq. apply str_forall_impl. intros c Hc.
  apply negb_true_iff in Hc. rewrite !orb_false_iff in Hc.
  destruct Hc as [[H1 H2] _]. by destruct Hq as [->| ->]; rewrite ?H1, ?H2.
Qed.

Lemma noQuoteHash_not_comment_app (s r : string) :
  s ≠ EmptyString → str_forall noQuoteHash s = true →
  ExportEnv.isCommentOrEmpty (s +:+ r) = false.
Proof.
  intros Hne Hs. unfold ExportEnv.isCommentOrEmpty.
  destruct s as [|c t]; [done|]. simpl in Hs.
  apply andb_true_iff in Hs as [Hc _]. apply negb_true_iff in Hc.
  rewrite !orb_false_iff in Hc. destruct Hc as [_ Hc].
  change (String c t +:+ r) with (String c (t +:+ r)).
  rewrite HasPrefix_char. cbn [String.eqb orb]. exact Hc.
Qed.

Lemma noQuoteHash_not_comment (s : string) :
  s ≠ EmptyString → str_forall noQuoteHash s = true →
  ExportEnv.isCommentOrEmpty s = false.
Proof.
  intros Hne Hs. rewrite <- (str_app_empty_r s).
  by apply noQuoteHash_not_comment_app.
Qed.

Lemma parseStep_continue (st : ExportEnv.ParseState) (m : string) :
  ExportEnv.multiline st = true →
  ExportEnv.quoteType st = dquote ∨ ExportEnv.quoteType st = squote →
  m ≠ EmptyString → TrimSpace m = m → str_forall noQuoteHash m = true →
  ExportEnv.parseStep st m
  = {| ExportEnv.key := ExportEnv.key st;
       ExportEnv.value := ExportEnv.value st +:+ str newline +:+ m;
       ExportEnv.multiline := true; ExportEnv.quoteType := ExportEnv.quoteType st;
       ExportEnv.envVars := ExportEnv.envVars st |}.
Proof.
  intros Hml Hq Hne Htrim Hplain. unfold ExportEnv.parseStep.
  rewrite Htrim, noQuoteHash_not_comment, Hml by done.
  rewrite HasSuffix_char_absent; [done|]. by apply noQuoteHash_no_quote.
Qed.

Lemma parseStep_continue_all (st : ExportEnv.ParseState) (mids : list string) :
  ExportEnv.multiline st = true →
  ExportEnv.quoteType st = dquote ∨ ExportEnv.quoteType st = squote →
  Forall (λ m, m ≠ EmptyString ∧ TrimSpace m = m ∧ str_forall noQuoteHash m = true)
         mids →
  foldl ExportEnv.parseStep st mids
  = {| ExportEnv.key := ExportEnv.key st;
       ExportEnv.value := foldl (λ v m, v +:+ str newline +:+ m)
                                (ExportEnv.value st) mids;
       ExportEnv.multiline := true; ExportEnv.quoteType := ExportEnv.quoteType st;
       ExportEnv.envVars := ExportEnv.envVars st |}.
Proof.
  intros Hml Hq Hmids. revert st Hml Hq.
  induction Hmids as [|m mids (Hne & Htrim & Hplain) _ IH]; intros st Hml Hq.
  - simpl. destruct st. simpl in *. by subst.
  - simpl. rewrite parseStep_continue by done. by rewrite IH.
Qed.

Lemma TrimSpace_left_of (x : string) (q : ascii) :
  x ≠ EmptyString → TrimSpace x = x →
  isAsciiSpace q = false → (code q < 128)%N →
  TrimSpace (x +:+ str q) = x +:+ str q.
Proof.
  intros Hne Hx Hq1 Hq2.
  destruct (TrimSpace_fixed_inv x Hx) as [?|[Hl _]]; [done|].
  apply TrimSpace_fixed; rewrite list_ascii_app.
  - apply spaceWidth_extend; [by destruct x|done|done].
  - rewrite reverse_app. simpl. by apply spaceWidthRev_low.
Qed.

Lemma joined_shape (A : string) (mids : list string) :
  foldl (λ v m, v +:+ str newline +:+ m) A mids = A ∨
  ∃ T, foldl (λ v m, v +:+ str newline +:+ m) A mids = A +:+ String newline T.
Proof.
  induction mids as [|m mids IH] using rev_ind; [by left|].
  right. rewrite foldl_app. simpl. destruct IH as [->|[T ->]].
  - by exists m.
  - exists (T +:+ str newline +:+ m). rewrite str_app_assoc. reflexivity.
Qed.

Lemma joined_noQuoteHash (A : string) (mids : list string) :
  str_forall noQuoteHash A = true →
  Forall (λ m, m ≠ EmptyString ∧ TrimSpace m = m ∧ str_forall noQuoteHash m = true)
         mids →
  str_forall noQuoteHash (foldl (λ v m, v +:+ str newline +:+ m) A mids) = true.
Proof.
  intros HA Hmids. revert A HA.
  induction Hmids as [|m mids (_ & _ & Hplain) _ IH]; intros A HA; [done|].
  simpl. apply IH. rewrite !str_forall_app. by rewrite HA, Hplain.
Qed.

Lemma joined_valid (A : string) (mids : list string) :
  ValidString A = true →
  Forall (λ m, ValidString m = true) mids →
  ValidString (foldl (λ v m, v +:+ str newline +:+ m) A mids) = true.
Proof.
  intros HA Hmids. revert A HA.
  induction Hmids as [|m mids Hm _ IH]; intros A HA; [done|].
  simpl. apply IH. by repeat apply ValidString_app.
Qed.

Lemma TrimSpace_joined (A B : string) (mids : list string) :
  A ≠ EmptyString → TrimSpace A = A →
  B ≠ EmptyString → TrimSpace B = B →
  TrimSpace (foldl (λ v m, v +:+ str newline +:+ m) A (mids ++ [B]))
  = foldl (λ v m, v +:+ str newline +:+ m) A (mids ++ [B]).
Proof.
  intros HA1 HA2 HB1 HB2.
  destruct (TrimSpace_fixed_inv A HA2) as [?|[HAl _]]; [done|].
  destruct (TrimSpace_fixed_inv B HB2) as [?|[_ HBr]]; [done|].
  assert (Hnl : (code newline < 128)%N) by done.
  apply TrimSpace_fixed.
  - assert (Hshape : ∃ T, foldl (λ v m, v +:+ str newline +:+ m) A (mids ++ [B])
                           = A +:+ String newline T).
    { rewrite foldl_app. simpl. destruct (joined_shape A mids) as [->|[T ->]].
      - by exists B.
      - exists (T +:+ str newline +:+ B). rewrite str_app_assoc. reflexivity. }
    destruct Hshape as [T ->].
    rewrite list_ascii_app. apply spaceWidth_extend; [by destruct A|done|done].
  - rewrite foldl_app. simpl. rewrite !list_ascii_app.
    simpl (list_ascii_of_string (str newline)). rewrite reverse_app, reverse_app.
    rewrite <- (assoc_L (++)). apply spaceWidthRev_extend; [|done|done].
    intros Hnil. apply (f_equal length) in Hnil. rewrite length_reverse in Hnil.
    by destruct B.
Qed.

(** X22. A multiline value: after a line [KEY=], a quote and a first
    part, lines of well-formed UTF-8 without quote characters or [#] are
    added to the value, each behind a newline, until the line that ends
    in the same quote; the key is then bound to the parts joined by
    newlines, and no line in between is read as an assignment. *)
Theorem parseLines_multiline_value
    (before mids : list string) (K first last : string) (q : ascii) :
  ExportEnv.multiline (stateAfter before) = false →
  Lines.isName K = true →
  q = dquote ∨ q = squote →
  Forall (λ m, m ≠ EmptyString ∧ TrimSpace m = m ∧
               str_forall noQuoteHash m = true)
         (first :: mids ++ [last]) →
  Forall (λ m, ValidString m = true) (first :: mids ++ [last]) →
  str_forall cls_dot first = true →
  ExportEnv.parseLines
    (before ++ (K +:+ "=" +:+ String q first) :: mids ++ [last +:+ str q])
  = <[K := foldl (λ v m, v +:+ str newline +:+ m) first (mids ++ [last])]>
      (ExportEnv.parseLines before).
Proof.
  intros Hml HK Hq Hparts Hvalid Hdot.
  apply Forall_cons in Hvalid as Hvalid'. destruct Hvalid' as [Hfv Hrestv].
  apply Forall_cons in Hparts as [(Hf1 & Hf2 & Hf3) Hparts].
  apply Forall_app in Hparts as [Hmids Hlast].
  apply Forall_singleton in Hlast as (Hl1 & Hl2 & Hl3).
  destruct (quote_low q Hq) as [Hq1 Hq2].
  unfold ExportEnv.parseLines.
  rewrite foldl_app. cbn [foldl]. rewrite foldl_app. cbn [foldl].
  assert (Htrimq : TrimSpace (String q first) = String q first).
  { destruct (TrimSpace_fixed_inv first Hf2) as [?|[_ Hr]]; [done|].
    apply TrimSpace_fixed.
    - by apply spaceWidth_low.
    - simpl. rewrite reverse_cons.
      apply (spaceWidthRev_extend _ q []); [|done|done].
      intros Hnil. apply (f_equal length) in Hnil.
      rewrite length_reverse in Hnil. by destruct first. }
  rewrite (parseStep_open (stateAfter before) K first q Hml HK Hq
             (noQuoteHash_no_quote q first Hq Hf3) Hdot Htrimq Hfv).
  rewrite parseStep_continue_all by done. cbn [ExportEnv.key ExportEnv.value
    ExportEnv.quoteType ExportEnv.envVars].
  unfold ExportEnv.parseStep.
  rewrite TrimSpace_left_of by done.
  rewrite noQuoteHash_not_comment_app by done.
  cbn [ExportEnv.multiline ExportEnv.quoteType ExportEnv.value ExportEnv.key
       ExportEnv.envVars].
  destruct (HasSuffix_char_app last q) as [-> ->].
  cbn [ExportEnv.envVars]. f_equal.
  rewrite removeInlineComment_plain.
  - pose proof (TrimSpace_joined first last mids Hf1 Hf2 Hl1 Hl2) as Hj.
    rewrite foldl_app in Hj. simpl in Hj. by rewrite foldl_app.
  - pose proof (joined_noQuoteHash first (mids ++ [last]) Hf3) as Hj.
    rewrite foldl_app in Hj. simpl in Hj. apply Hj.
    apply Forall_app. split; [done|]. by apply Forall_singleton.
  - pose proof (joined_valid first (mids ++ [last]) Hfv Hrestv) as Hj.
    by rewrite foldl_app in Hj.
Qed.

(** ** A whole run of the multi-file program *)

Lemma name_no_equals (K : string) :
  Lines.isName K = true → str_forall (λ c, negb (isCode 61 c)) K = true.
Proof.
  intros HK. destruct (isName_chars K HK) as (c & t & _ & Hall).
  apply str_forall_Forall. eapply Forall_impl; [exact Hall|].
  intros a Ha. apply name_notHashEq in Ha. unfold cls_notHashEq in Ha.
  apply negb_true_iff, orb_false_iff in Ha as [_ Ha]. by rewrite Ha.
Qed.

Lemma sortEnvVars_singleton
    (range : EnvMap → list (string * string)) (Hrange : range_order range)
    (K V : string) :
  ExportEnv.sortEnvVars range (<[K := V]> ∅) = [K +:+ "=" +:+ V].
Proof.
  assert (Hone : range (<[K := V]> ∅) = [(K, V)]).
  { apply Permutation_singleton_r. rewrite (Hrange _).
    by rewrite insert_empty, map_to_list_singleton. }
  unfold ExportEnv.sortEnvVars. rewrite Hone. simpl.
  unfold index. by rewrite lookup_insert_eq.
Qed.

(** X23. A run on one file that consists of one line [KEY=VALUE], with a
    name for key and a trimmed value of well-formed UTF-8 without quote
    characters, [#] or dollar sign, with no [-v] and no command: whatever
    the other flags, the output is the one statement [export KEY=] with
    the value in double quotes. *)
Theorem main_exports_plain_line
    (range : EnvMap → list (string * string)) (Hrange : range_order range)
    (fs : filesystem) (cmdFails : list string → list string → bool)
    (args : ExportEnv.Args) (f K V : string) :
  ExportEnv.defaultFiles (ExportEnv.EnvFiles args) = [f] →
  fs f = Readable [K +:+ "=" +:+ V] false →
  ExportEnv.Vars args = [] →
  ExportEnv.Cmd args = [] →
  Lines.isName K = true →
  TrimSpace V = V →
  ValidString V = true →
  str_forall noQuoteHash V = true →
  str_forall cls_dot V = true →
  str_forall (λ c, negb (isCode 36 c)) V = true →
  ExportEnv.main range fs cmdFails args
  = [Print ("export " +:+ K +:+ "=" +:+ str dquote +:+ V +:+ str dquote)].
Proof.
  intros Hfiles Hfs Hvars Hcmd HK HV Hvalid Hplain Hdot Hdollar.
  assert (Hparse : ExportEnv.parseEnvFile fs f = Ok (<[K := V]> ∅)).
  { unfold ExportEnv.parseEnvFile. rewrite Hfs. f_equal.
    by apply (parseLines_assign [] K V). }
  assert (Hload : ExportEnv.loadEnvFiles range fs (ExportEnv.EnvFiles args)
                    (ExportEnv.Override args) = Ok (<[K := V]> ∅)).
  { unfold ExportEnv.loadEnvFiles. rewrite Hfiles. simpl. rewrite Hparse. simpl.
    f_equal. destruct (ExportEnv.Override args).
    - rewrite mergeFileVars_override by done. apply (right_id_L ∅ (∪)).
    - rewrite mergeFileVars_keep by done. apply (left_id_L ∅ (∪)). }
  unfold ExportEnv.main. rewrite Hload, Hvars, Hcmd.
  change (ExportEnv.parseCommandLineVars []) with (∅ : EnvMap).
  rewrite mergeEnvVars_union by done. rewrite (left_id_L ∅ (∪)).
  assert (Hexp : (if ExportEnv.NoExpand args then <[K := V]> ∅
                  else ExportEnv.expandEnvVars range (<[K := V]> ∅))
                 = (<[K := V]> ∅ : EnvMap)).
  { destruct (ExportEnv.NoExpand args); [done|].
    unfold ExportEnv.expandEnvVars. apply expandEnvVarsIn_fixed.
    intros k v Hkv. apply lookup_insert_Some in Hkv as [[_ <-]|[_ Hkv]]; [done|].
    by rewrite lookup_empty in Hkv. }
  rewrite Hexp, sortEnvVars_singleton by done.
  unfold ExportEnv.printExportableEnvVars. cbn [map]. cbv zeta.
  rewrite SplitN2_pair by (by apply name_no_equals).
  unfold ReplaceAll, str. rewrite (replaceFrom_absent dquote); [done|].
  revert Hplain. apply str_forall_impl. intros c Hc.
  apply negb_true_iff in Hc. rewrite !orb_false_iff in Hc.
  destruct Hc as [[-> _] _]. done.
Qed.


(** ** The single-file program *)

Lemma last_app_char (s : string) (q : ascii) : Simple.last (s +:+ str q) = q.
Proof.
  induction s as [|c s IH]; [done|].
  change (String c s +:+ str q) with (String c (s +:+ str q)).
  cbn [Simple.last]. rewrite IH.
  destruct s; reflexivity.
Qed.

Lemma any_quote_low (q : ascii) :
  q = dquote ∨ q = squote ∨ q = backtick →
  isAsciiSpace q = false ∧ (code q < 128)%N.
Proof. by intros [->|[->| ->]]. Qed.

(** X25. [cleanValue] on a value between two quotes of the same kind,
    double, single or backtick: the quotes are removed, what was between
    them is trimmed once more, and then every backslash followed by a
    quote of any of the three kinds loses the backslash, whichever quote
    surrounded the value. *)
Theorem cleanValue_quoted (q : ascii) (body : string) :
  q = dquote ∨ q = squote ∨ q = backtick →
  Simple.cleanValue (String q (body +:+ str q))
  = Some (ReplaceAll
            (ReplaceAll
               (ReplaceAll (TrimSpace body)
                  (String backslash (str dquote)) (str dquote))
               (String backslash (str squote)) (str squote))
            (String backslash (str backtick)) (str backtick)).
Proof.
  intros Hq. destruct (any_quote_low q Hq) as [Hq1 Hq2].
  unfold Simple.cleanValue. rewrite TrimSpace_between by done.
  cbn [String.length Nat.eqb Simple.first].
  change (Simple.last (String q (body +:+ str q)))
    with (Simple.last (String q body +:+ str q)).
  rewrite last_app_char.
  assert (Hcond : (Ascii.eqb q dquote && Ascii.eqb q dquote) ||
                  (Ascii.eqb q squote && Ascii.eqb q squote) ||
                  (Ascii.eqb q backtick && Ascii.eqb q backtick) = true).
  { by destruct Hq as [->|[->| ->]]. }
  rewrite Hcond.
  assert (Hslice : slice (String q (body +:+ str q)) 1
                     (S (String.length (body +:+ str q)) - 1) = Some body).
  { unfold slice. cbn [String.length str_drop].
    rewrite str_length_app. cbn [str String.length].
    replace (S (String.length body + 1) - 1) with (S (String.length body)) by lia.
    replace (1 <=? S (String.length body)) with true
      by (symmetry; apply Nat.leb_le; lia).
    replace (S (String.length body) <=? S (String.length body + 1)) with true
      by (symmetry; apply Nat.leb_le; lia).
    cbn [andb]. f_equal.
    replace (S (String.length body) - 1) with (String.length body) by lia.
    apply str_take_app. }
  rewrite Hslice. done.
Qed.

(** X24. [cleanValue] panics on exactly the values that, once trimmed, are
    a single quote character, double, single or backtick; on every other
    value it returns. *)
Theorem cleanValue_panics_exactly_on_lone_quote (value : string) :
  Simple.cleanValue value = None ↔
  ∃ q, TrimSpace value = str q ∧ (q = dquote ∨ q = squote ∨ q = backtick).
Proof. apply cleanValue_panics_iff. Qed.

(** X26. Without [--eval] and [--unset] the single-file program prints
    one statement [export KEY=VALUE] for each variable, the value as it
    was parsed, without quotes or escapes, in the order the map is
    iterated in; with [--eval] it prints the heading and then one line
    [KEY=VALUE] for each variable. *)
Theorem simple_main_export_and_eval
    (range : EnvMap → list (string * string)) (Hrange : range_order range)
    (fs : filesystem) (args : Simple.Args) (envVars : EnvMap) :
  Simple.parseEnvFile fs
    (if String.eqb (Simple.File args) EmptyString then ".env" else Simple.File args)
    = Ok envVars →
  (Simple.Eval args = false → Simple.Unset args = false →
   Simple.main range fs args
   ≡ₚ map (λ kv, Print ("export " +:+ kv.1 +:+ "=" +:+ kv.2)) (map_to_list envVars)) ∧
  (Simple.Eval args = true →
   ∃ lines, Simple.main range fs args
            = Print "Evaluated environment variables:" :: lines ∧
            lines ≡ₚ map (λ kv, Print (kv.1 +:+ "=" +:+ kv.2)) (map_to_list envVars)).
Proof.
  intros Hparse. unfold Simple.main. rewrite Hparse. split.
  - intros -> ->. unfold Simple.exportEnvVars. apply Permutation_map, Hrange.
  - intros ->. unfold Simple.displayEnvVars. eexists. split; [done|].
    apply Permutation_map, Hrange.
Qed.

(** ** Lines without an equals sign *)

Lemma search_anchored (r : regex) (pos : nat) (s : string) :
  search (RSeq RBegin r) (S pos) s = None.
Proof.
  revert pos. induction s as [|c s IH]; intros pos; [done|].
  cbn [search]. unfold matchAt at 1. cbn [rmatch Nat.eqb]. apply IH.
Qed.

Lemma search_at_start (r : regex) (s : string) :
  search (RSeq RBegin r) 0 s = matchAt (RSeq RBegin r) 0 s.
Proof.
  destruct s as [|c s]; cbn [search].
  - by destruct (matchAt _ _ _).
  - rewrite search_anchored. by destruct (matchAt _ _ _).
Qed.

Local Abbreviation notEq := (λ c : ascii, negb (cls_is 61 c)).

Lemma equals_sign_missing (pos : nat) (s : string) (caps : captures)
    (r : regex) (k : cont) :
  str_forall notEq s = true →
  rmatch (RSeq (RStar cls_space) (RSeq (RChar (cls_is 61)) r)) pos s caps k = None.
Proof.
  intros Hs. cbn [rmatch].
  apply (starGreedy_none cls_space notEq); [done|].
  intros pos' [|c t] caps' Hs'; [done|]. simpl in Hs'.
  apply andb_true_iff in Hs' as [Hc _]. apply negb_true_iff in Hc. by rewrite Hc.
Qed.

Lemma no_equals_no_match (p1 p2 : ascii → bool) (r : regex) (line : string) :
  str_forall notEq line = true →
  search (RSeq RBegin
           (RSeq (RStar cls_space)
              (RSeq (RGroup 1 (RSeq (RChar p1) (RStar p2)))
                 (RSeq (RStar cls_space) (RSeq (RChar (cls_is 61)) r)))))
         0 line = None.
Proof.
  intros Hline. rewrite search_at_start. unfold matchAt.
  set (tail := RSeq (RStar cls_space) (RSeq (RChar (cls_is 61)) r)).
  cbn [rmatch Nat.eqb].
  apply (starGreedy_none cls_space notEq); [done|].
  intros pos' [|c t] caps' Hs'; [done|]. simpl in Hs'.
  apply andb_true_iff in Hs' as [_ Ht]. destruct (p1 c); [|done].
  apply (starGreedy_none p2 notEq); [done|].
  intros pos'' s'' caps'' Hs''. by apply equals_sign_missing.
Qed.

(** X27. The single-file program skips a line without an equals sign: the
    map stays as it was and nothing panics. *)
Theorem simple_line_without_equals_skipped (envVars : EnvMap) (text : string) :
  str_forall notEq (TrimSpace text) = true →
  Simple.parseStep envVars text = Some envVars.
Proof.
  intros Hline. unfold Simple.parseStep.
  destruct (_ || _); [done|].
  unfold FindStringSubmatch, Simple.envLinePattern. cbn [seqs].
  by rewrite no_equals_no_match.
Qed.

(** X28. [parseEnvFile] of main.go does not skip such a line: outside a
    multiline value, a line without an equals sign that is no comment
    binds the empty key to the empty value and leaves the other keys as
    they were. *)
Theorem line_without_equals_binds_empty_key
    (st : ExportEnv.ParseState) (text : string) :
  ExportEnv.multiline st = false →
  ExportEnv.isCommentOrEmpty (TrimSpace text) = false →
  str_forall notEq (TrimSpace text) = true →
  ExportEnv.envVars (ExportEnv.parseStep st text)
  = <[EmptyString := EmptyString]> (ExportEnv.envVars st).
Proof.
  intros Hml Hcomment Hline. unfold ExportEnv.parseStep, ExportEnv.parseLine.
  rewrite Hcomment, Hml.
  unfold FindStringSubmatch, ExportEnv.keyValueLine. cbn [seqs].
  by rewrite no_equals_no_match.
Qed.

(** ** The keys [parseEnvFile] of main.go stores *)

Lemma starGreedy_inv (p : ascii → bool) pos s caps (k : cont) res :
  starGreedy p pos s caps k = Some res →
  ∃ x y, s = x +:+ y ∧ str_forall p x = true ∧
         k (pos + String.length x) y caps = Some res.
Proof.
  revert pos. induction s as [|c t IH]; intros pos Hm.
  - exists EmptyString, EmptyString. rewrite Nat.add_0_r. done.
  - cbn [starGreedy] in Hm. destruct (p c) eqn:Hc.
    + destruct (starGreedy p (S pos) t caps k) as [r|] eqn:Hrec.
      * injection Hm as ->. destruct (IH _ Hrec) as (x & y & -> & Hx & Hk).
        exists (String c x), y. split; [done|]. split.
        -- simpl. by rewrite Hc, Hx.
        -- simpl. by rewrite <- Nat.add_succ_comm.
      * exists EmptyString, (String c t). rewrite Nat.add_0_r. done.
    + exists EmptyString, (String c t). rewrite Nat.add_0_r. done.
Qed.

Lemma keyValueLine_key (line : string) (caps : captures) :
  matchAt ExportEnv.keyValueLine 0 line = Some caps →
  Lines.isName (group line caps 1) = true.
Proof.
  unfold matchAt, ExportEnv.keyValueLine. cbn [seqs rmatch Nat.eqb]. intros H.
  apply starGreedy_inv in H as (x0 & y0 & -> & _ & H). cbv beta in H.
  destruct y0 as [|c y0]; [done|]. destruct (cls_nameStart c) eqn:Hc; [|done].
  apply starGreedy_inv in H as (x1 & y1 & -> & Hx1 & H). cbv beta in H.
  apply starGreedy_inv in H as (x2 & y2 & -> & _ & H). cbv beta in H.
  destruct y2 as [|c2 y2]; [done|]. destruct (cls_is 61 c2); [|done].
  apply starGreedy_inv in H as (x3 & y3 & -> & _ & H). cbv beta in H.
  apply starGreedy_inv in H as (x4 & y4 & -> & _ & H). cbv beta in H.
  destruct y4 as [|]; [|done]. injection H as <-.
  unfold group.
  match goal with
  | |- context [?m !! 1] =>
      assert (Hl : m !! 1 = Some (String.length x0,
                                  S (String.length x0 + String.length x1))) by done;
      rewrite Hl
  end.
  replace (S (String.length x0 + String.length x1) - String.length x0)
    with (String.length (String c x1)) by (simpl; lia).
  rewrite str_drop_app.
  change (String c (x1 +:+ x2 +:+ String c2 (x3 +:+ x4 +:+ EmptyString)))
    with (String c x1 +:+ x2 +:+ String c2 (x3 +:+ x4 +:+ EmptyString)).
  rewrite str_take_app. simpl. by rewrite Hc, Hx1.
Qed.

Lemma FindStringSubmatch_key (line : string) (l : list string) :
  FindStringSubmatch ExportEnv.keyValueLine 2 line = Some l →
  ∃ w key val, l = [w; key; val] ∧ Lines.isName key = true.
Proof.
  unfold FindStringSubmatch, ExportEnv.keyValueLine. cbn [seqs].
  rewrite search_at_start. change (RSeq RBegin _) with ExportEnv.keyValueLine.
  destruct (matchAt ExportEnv.keyValueLine 0 line) as [caps|] eqn:Hm; [|done].
  intros [= <-]. apply keyValueLine_key in Hm. cbn [seq map]. eauto.
Qed.

Lemma parseLine_key (line : string) :
  (ExportEnv.parseLine line).1.1.1 = EmptyString ∨
  Lines.isName (ExportEnv.parseLine line).1.1.1 = true.
Proof.
  unfold ExportEnv.parseLine.
  destruct (FindStringSubmatch ExportEnv.keyValueLine 2 line) as [l|] eqn:Hm;
    [|by left].
  destruct (FindStringSubmatch_key _ _ Hm) as (w & key & val & -> & Hkey).
  right. cbv zeta.
  destruct (HasPrefix _ _ || HasPrefix _ _); [|done].
  destruct (ExportEnv.removeInlineComment _); [done|].
  by destruct (HasSuffix _ _).
Qed.

Lemma parseStep_keys (st : ExportEnv.ParseState) (text : string) :
  (ExportEnv.key st = EmptyString ∨ Lines.isName (ExportEnv.key st) = true) →
  (∀ k, is_Some (ExportEnv.envVars st !! k) → k = EmptyString ∨ Lines.isName k = true) →
  (ExportEnv.key (ExportEnv.parseStep st text) = EmptyString ∨
   Lines.isName (ExportEnv.key (ExportEnv.parseStep st text)) = true) ∧
  (∀ k, is_Some (ExportEnv.envVars (ExportEnv.parseStep st text) !! k) →
        k = EmptyString ∨ Lines.isName k = true).
Proof.
  intros Hkey Hmap. unfold ExportEnv.parseStep.
  destruct (ExportEnv.isCommentOrEmpty _); [done|].
  destruct (ExportEnv.multiline st).
  - destruct (HasSuffix _ _); cbn; [|done]. split; [done|].
    intros k Hk. destruct (decide (ExportEnv.key st = k)) as [<-|Hne]; [done|].
    rewrite lookup_insert_ne in Hk by done. by apply Hmap.
  - pose proof (parseLine_key (TrimSpace text)) as Hpl.
    destruct (ExportEnv.parseLine (TrimSpace text)) as [[[k' val] ml] qt].
    cbn in Hpl. destruct ml; cbn; [done|]. split; [done|].
    intros k Hk. destruct (decide (k' = k)) as [<-|Hne]; [done|].
    rewrite lookup_insert_ne in Hk by done. by apply Hmap.
Qed.

(** X29. Every key of the map [parseEnvFile] of main.go builds is a name,
    a character of [A-Za-z_] followed by characters of [A-Za-z0-9_], or
    the empty key that a malformed line leaves behind. *)
Theorem parseLines_keys_are_names (lines : list string) (k : string) :
  is_Some (ExportEnv.parseLines lines !! k) →
  k = EmptyString ∨ Lines.isName k = true.
Proof.
  unfold ExportEnv.parseLines.
  assert (Hinv : ∀ st,
    (ExportEnv.key st = EmptyString ∨ Lines.isName (ExportEnv.key st) = true) →
    (∀ k, is_Some (ExportEnv.envVars st !! k) → k = EmptyString ∨ Lines.isName k = true) →
    ∀ k, is_Some (ExportEnv.envVars (foldl ExportEnv.parseStep st lines) !! k) →
         k = EmptyString ∨ Lines.isName k = true).
  { induction lines as [|text lines IH]; intros st Hkey Hmap; [done|].
    simpl. destruct (parseStep_keys st text Hkey Hmap) as [Hkey' Hmap'].
    by apply IH. }
  apply Hinv.
  - by left.
  - intros k' Hk'. simpl in Hk'. rewrite lookup_empty in Hk'. by destruct Hk'.
Qed.

(** ** Inline comments in the single-file program *)

Lemma starLazy_upto (p : ascii → bool) (Q : string → Prop)
    pos x y caps (k : cont) res :
  (∀ c t, Q (String c t) → p c = true ∧ (t = EmptyString ∨ Q t)) →
  (x = EmptyString ∨ Q x) →
  (∀ pos' c t, Q (String c t) → k pos' (String c t +:+ y) caps = None) →
  k (pos + String.length x) y caps = Some res →
  starLazy p pos (x +:+ y) caps k = Some res.
Proof.
  intros HQ Hx Hfail. revert pos Hx.
  induction x as [|c t IH]; intros pos Hx Hk.
  - simpl in Hk. rewrite Nat.add_0_r in Hk.
    change (EmptyString +:+ y) with y. destruct y; cbn [starLazy]; by rewrite Hk.
  - destruct Hx as [?|Hx]; [done|].
    change (String c t +:+ y) with (String c (t +:+ y)).
    cbn [starLazy].
    change (String c (t +:+ y)) with (String c t +:+ y). rewrite (Hfail _ _ _ Hx).
    destruct (HQ _ _ Hx) as [-> Ht].
    apply IH; [done|]. simpl in Hk. by rewrite <- Nat.add_succ_comm in Hk.
Qed.

(** What is known of every non-empty rest of a trimmed value: no [#], no
    newline, and the last character is no white space. *)
Local Abbreviation valueRest :=
  (λ s : string, str_forall (λ c, negb (cls_is 35 c)) s = true ∧
                 str_forall cls_dot s = true ∧
                 cls_space (Simple.last s) = false).

Lemma valueRest_step (c : ascii) (t : string) :
  valueRest (String c t) → cls_dot c = true ∧ (t = EmptyString ∨ valueRest t).
Proof.
  intros (Hh & Hd & Hl). simpl in Hh, Hd.
  apply andb_true_iff in Hh as [_ Hh]. apply andb_true_iff in Hd as [Hc Hd].
  split; [done|]. destruct t as [|c' t]; [by left|]. right. done.
Qed.

Lemma spaces_then_hash_inside (s y : string) pos caps (kh : cont) :
  (∀ pos' c t caps', cls_is 35 c = false → kh pos' (String c t) caps' = None) →
  s ≠ EmptyString → valueRest s →
  starGreedy cls_space pos (s +:+ y) caps kh = None.
Proof.
  intros Hkh. revert pos. induction s as [|c t IH]; intros pos Hne Hs; [done|].
  destruct Hs as (Hh & Hd & Hl).
  assert (Hc : cls_is 35 c = false).
  { simpl in Hh. apply andb_true_iff in Hh as [Hc _]. by apply negb_true_iff in Hc. }
  change (String c t +:+ y) with (String c (t +:+ y)). cbn [starGreedy].
  rewrite (Hkh _ _ _ _ Hc).
  destruct (cls_space c) eqn:Hsp; [|done].
  destruct t as [|c' t]; [simpl in Hl; congruence|].
  rewrite IH; [done|done|].
  destruct (valueRest_step c (String c' t)) as [_ [?|?]]; done.
Qed.

Lemma last_reverse (s : string) :
  s ≠ EmptyString →
  ∃ r, reverse (list_ascii_of_string s) = Simple.last s :: r.
Proof.
  induction s as [|c t IH]; intros Hne; [done|].
  destruct t as [|c' t]; [by exists []|].
  destruct IH as [r Hr]; [done|].
  exists (r ++ [c]).
  change (list_ascii_of_string (String c (String c' t)))
    with (c :: list_ascii_of_string (String c' t)).
  rewrite reverse_cons, Hr. done.
Qed.

Lemma trimmed_last_not_space (V : string) :
  V ≠ EmptyString → TrimSpace V = V → cls_space (Simple.last V) = false.
Proof.
  intros Hne HV. destruct (TrimSpace_fixed_inv V HV) as [?|[_ Hr]]; [done|].
  destruct (last_reverse V Hne) as [r Hrev]. rewrite Hrev in Hr.
  apply space_asciiSpace. simpl in Hr. by destruct (isAsciiSpace (Simple.last V)).
Qed.

Lemma envLinePattern_match_comment (K V sp comment : string) :
  Lines.isName K = true →
  V ≠ EmptyString → TrimSpace V = V →
  str_forall Lines.isPlainChar V = true →
  str_forall (λ c, isCode 32 c || isCode 9 c) sp = true →
  str_forall cls_dot comment = true →
  FindStringSubmatch Simple.envLinePattern 3
    (K +:+ "=" +:+ V +:+ sp +:+ String hash comment)
  = Some [K +:+ "=" +:+ V +:+ sp +:+ String hash comment; K; V;
          sp +:+ String hash comment].
Proof.
  intros HK Hne HV Hplain Hsp Hcomment.
  destruct K as [|c K]; [done|]. simpl in HK.
  apply andb_true_iff in HK as [Hc HK].
  assert (Hc' : cls_name c = true) by (unfold cls_name; by rewrite Hc).
  assert (Hspace : str_forall cls_space sp = true).
  { revert Hsp. apply str_forall_impl. intros a Ha.
    by destruct (blank_char a Ha) as [->| ->]. }
  set (rest := sp +:+ String hash comment).
  set (line := String c K +:+ "=" +:+ V +:+ rest).
  set (pv := S (String.length (String c K))).
  set (res := (<[0 := (0, String.length line)]>
               (<[3 := (pv + String.length V, String.length line)]>
               (<[2 := (pv, pv + String.length V)]>
               (<[1 := (0, String.length (String c K))]> ∅)))) : captures).
  assert (Hlen : String.length line
                 = pv + String.length V + String.length sp + S (String.length comment)).
  { unfold line, rest, pv. rewrite !str_length_app. simpl.
    rewrite ?str_length_app. simpl. lia. }
  assert (Hm : matchAt Simple.envLinePattern 0 line = Some res).
  { unfold matchAt, Simple.envLinePattern. cbn [seqs].
    set (tail := RSeq (ROpt _) REnd).
    subst line. cbn [rmatch Nat.eqb].
    change (String c K +:+ "=" +:+ V +:+ rest)
      with (String c (K +:+ "=" +:+ V +:+ rest)).
    rewrite starGreedy_stop.
    2:{ intros c' t' [= <- _]. by apply name_not_space. }
    cbv iota. rewrite (name_notHashEq c Hc').
    apply (starGreedy_run cls_notHashEq 1 K ("=" +:+ V +:+ rest)).
    { revert HK. apply str_forall_impl, name_notHashEq. }
    { by intros c' t' [= <- _]. }
    rewrite starGreedy_stop by (by intros c' t' [= <- _]).
    change ("=" +:+ V +:+ rest) with (String "=" (V +:+ rest)). cbv iota.
    change (cls_is 61 "=") with true. cbv iota.
    rewrite starGreedy_stop.
    2:{ intros c' t' Heq. destruct V as [|v V]; [done|].
        injection Heq as <- _. by apply (trimmed_head_not_space (String v V) v V). }
    apply (starLazy_upto cls_dot valueRest).
    - apply valueRest_step.
    - right. split; [by apply plain_not_hash|]. split; [by apply plain_dot|].
      by apply trimmed_last_not_space.
    - intros pos' c' t' Hrest. subst tail. cbn [rmatch seqs].
      rewrite spaces_then_hash_inside; [done| |done|done].
      intros pos'' c'' t'' caps'' Hc''. by rewrite Hc''.
    - subst tail rest. cbn [rmatch seqs].
      rewrite (starGreedy_run cls_space _ sp (String hash comment) _ _ res);
        [done|done|by intros c' t' [= <- _]|].
      change (cls_is 35 hash) with true. cbv iota.
      apply starGreedy_all; [done|].
      unfold res. rewrite Hlen. unfold pv. cbn [String.length].
      repeat (f_equal; try lia). }
  unfold FindStringSubmatch. fold rest. fold line.
  rewrite (search_found _ _ _ _ Hm).
  assert (H0 : res !! 0 = Some (0, String.length line)) by done.
  assert (H1 : res !! 1 = Some (0, String.length (String c K))) by done.
  assert (H2 : res !! 2 = Some (pv, pv + String.length V)) by done.
  assert (H3 : res !! 3 = Some (pv + String.length V, String.length line)) by done.
  f_equal. cbn [seq map]. unfold group. rewrite H0, H1, H2, H3.
  rewrite !Nat.sub_0_r, !str_drop_0, str_take_all.
  assert (Hdrop : str_drop pv line = V +:+ rest).
  { unfold line, pv. rewrite <- str_app_assoc.
    replace (S (String.length (String c K))) with (String.length (String c K +:+ "="))
      by (rewrite str_length_app; simpl; lia).
    apply str_drop_app. }
  f_equal. f_equal; [apply str_take_app|]. f_equal.
  - rewrite Hdrop.
    replace (pv + String.length V - pv) with (String.length V) by lia.
    apply str_take_app.
  - f_equal.
    assert (Hdrop2 : str_drop (pv + String.length V) line = rest).
    { unfold line. rewrite <- str_app_assoc, <- str_app_assoc.
      replace (pv + String.length V)
        with (String.length ((String c K +:+ "=") +:+ V))
        by (unfold pv; rewrite !str_length_app; simpl; lia).
      apply str_drop_app. }
    rewrite Hdrop2.
    replace (String.length line - (pv + String.length V)) with (String.length rest)
      by (unfold rest; rewrite Hlen, str_length_app; simpl; lia).
    apply str_take_all.
Qed.

(** X30. [KEY=VALUE # comment] in the single-file program: for a trimmed
    line with a name for key and a non-empty trimmed value without
    quotes, backslash or [#], the key is bound to the value and the
    comment is dropped. *)
Theorem simple_inline_comment
    (envVars : EnvMap) (K V sp comment : string) :
  Lines.isName K = true →
  V ≠ EmptyString → TrimSpace V = V →
  str_forall Lines.isPlainChar V = true →
  str_forall (λ c, isCode 32 c || isCode 9 c) sp = true →
  str_forall cls_dot comment = true →
  TrimSpace (K +:+ "=" +:+ V +:+ sp +:+ String hash comment)
  = K +:+ "=" +:+ V +:+ sp +:+ String hash comment →
  Simple.parseStep envVars (K +:+ "=" +:+ V +:+ sp +:+ String hash comment)
  = Some (<[K := V]> envVars).
Proof.
  intros HK Hne HV Hplain Hsp Hcomment Hline. unfold Simple.parseStep.
  rewrite Hline, name_not_comment by done.
  rewrite envLinePattern_match_comment by done.
  rewrite HV, TrimSpace_name, cleanValue_plain by done. done.
Qed.

(** ** The further properties at concrete inputs *)

Lemma loadEnvFiles_order_independent_witness :
  ExportEnv.loadEnvFiles Fixtures.forwardRange Fixtures.twoFiles ["F1"; "F2"] true
  = ExportEnv.loadEnvFiles Fixtures.backwardRange Fixtures.twoFiles ["F1"; "F2"] true.
Proof.
  apply (loadEnvFiles_order_independent _ _ forwardRange_order backwardRange_order).
Defined.

Lemma loadEnvFiles_first_error_witness :
  ExportEnv.loadEnvFiles Fixtures.forwardRange Fixtures.oneFile
    ["ok.env"; "missing.env"; "later.env"] false
  = Fail (ErrOpen "missing.env").
Proof.
  apply (loadEnvFiles_first_error Fixtures.forwardRange Fixtures.oneFile
           ["ok.env"; "missing.env"; "later.env"] ["ok.env"] ["later.env"]
           "missing.env" false (ErrOpen "missing.env")).
  - reflexivity.
  - constructor; [|constructor]. eexists. reflexivity.
  - reflexivity.
Defined.

Lemma loadEnvFiles_single_file_witness :
  ExportEnv.loadEnvFiles Fixtures.forwardRange (Fixtures.dotEnv ["A=1"]) [".env"] true
  = ExportEnv.parseEnvFile (Fixtures.dotEnv ["A=1"]) ".env" ∧
  ExportEnv.loadEnvFiles Fixtures.forwardRange (Fixtures.dotEnv ["A=1"]) [] true
  = ExportEnv.parseEnvFile (Fixtures.dotEnv ["A=1"]) ".env".
Proof.
  apply (loadEnvFiles_single_file Fixtures.forwardRange forwardRange_order
           (Fixtures.dotEnv ["A=1"]) ".env" true).
Defined.

Lemma loadEnvFiles_binding_from_file_witness :
  ∃ f m, f ∈ ["F1"; "F2"] ∧
         ExportEnv.parseEnvFile Fixtures.twoFiles f = Ok m ∧ m !! "A" = Some "1".
Proof.
  apply (loadEnvFiles_binding_from_file Fixtures.forwardRange forwardRange_order
           Fixtures.twoFiles ["F1"; "F2"] false (<["A" := "1"]> ∅) "A" "1").
  - vm_compute. reflexivity.
  - reflexivity.
Defined.

Lemma mergeEnvVars_other_keys_kept_witness :
  ExportEnv.mergeEnvVars Fixtures.forwardRange
    (<["A" := "1"]> (<["B" := "2"]> ∅)) (<["A" := "3"]> ∅) !! "B"
  = (<["A" := "1"]> (<["B" := "2"]> ∅) : EnvMap) !! "B".
Proof.
  apply (mergeEnvVars_other_keys_kept Fixtures.forwardRange forwardRange_order).
  reflexivity.
Defined.

Lemma parseCommandLineVars_bare_name_witness :
  ExportEnv.parseCommandLineVars ["A=1"; "DEBUG"; "B=2"] !! "DEBUG" = Some EmptyString.
Proof.
  apply (parseCommandLineVars_bare_name ["A=1"] ["B=2"] "DEBUG").
  - reflexivity.
  - intros w Hw. apply elem_of_cons in Hw as [->|Hw].
    + vm_compute. discriminate.
    + by apply elem_of_nil in Hw.
Defined.

Lemma parseCommandLineVars_first_equals_witness :
  ExportEnv.parseCommandLineVars ["A=1"; "URL=a=b"] !! "URL" = Some "a=b".
Proof.
  apply (parseCommandLineVars_first_equals ["A=1"] [] "URL" "a=b").
  - reflexivity.
  - intros w Hw. by apply elem_of_nil in Hw.
Defined.

Lemma sortEnvVars_sorted_witness :
  ∃ keys,
    Sorted String.le keys ∧
    keys ≡ₚ (map_to_list (<["B" := "2"]> (<["A" := "1"]> ∅) : EnvMap)).*1 ∧
    ExportEnv.sortEnvVars Fixtures.backwardRange (<["B" := "2"]> (<["A" := "1"]> ∅))
    = map (λ k, k +:+ "=" +:+ index (<["B" := "2"]> (<["A" := "1"]> ∅)) k) keys ∧
    ExportEnv.sortEnvVars Fixtures.backwardRange (<["B" := "2"]> (<["A" := "1"]> ∅))
    = ExportEnv.sortEnvVars map_to_list (<["B" := "2"]> (<["A" := "1"]> ∅)).
Proof.
  apply (sortEnvVars_sorted Fixtures.backwardRange backwardRange_order).
Defined.

Lemma printExportableEnvVars_entries_witness :
  ExportEnv.printExportableEnvVars ["A=x=y"]
  = [Print ("export A=" +:+ str dquote +:+ "x=y" +:+ str dquote)].
Proof.
  apply (printExportableEnvVars_entries [("A", "x=y")]).
  constructor; [reflexivity|constructor].
Defined.

Lemma expandEnvVars_no_dollar_witness :
  ExportEnv.expandEnvVarsIn ["A"] (<["A" := "1"]> ∅) = <["A" := "1"]> ∅.
Proof.
  apply (expandEnvVars_no_dollar ["A"] (<["A" := "1"]> ∅)).
  apply map_Forall_insert_2; [reflexivity|apply map_Forall_empty].
Defined.

Lemma expandVariables_reference_witness :
  ExportEnv.expandVariables ("${" +:+ "A" +:+ "}" +:+ "bar") (<["A" := "foo"]> ∅)
  = index (<["A" := "foo"]> ∅) "A"
    +:+ ExportEnv.expandVariables "bar" (<["A" := "foo"]> ∅).
Proof.
  apply (expandVariables_reference (<["A" := "foo"]> ∅) "A" "bar").
  - discriminate.
  - reflexivity.
Defined.

Lemma removeInlineComment_unquoted_witness :
  ExportEnv.removeInlineComment "café # comment" = TrimSpace "café " ∧
  ExportEnv.removeInlineComment "café " = TrimSpace "café ".
Proof.
  apply (removeInlineComment_unquoted "café " " comment").
  - reflexivity.
  - reflexivity.
Defined.

Lemma removeInlineComment_quoted_witness :
  ExportEnv.removeInlineComment
    (String dquote ("a # b" +:+ String dquote (" " +:+ String hash " c")))
  = TrimSpace (String dquote ("a # b" +:+ String dquote " ")).
Proof.
  apply (removeInlineComment_quoted dquote "a # b" " " " c").
  - by left.
  - reflexivity.
  - reflexivity.
  - reflexivity.
  - reflexivity.
Defined.

Lemma removeInlineComment_open_quote_witness :
  ExportEnv.removeInlineComment ("don" +:+ String squote "t # note")
  = TrimSpace ("don" +:+ String squote "t # note").
Proof.
  apply (removeInlineComment_open_quote squote "don" "t # note").
  - by right.
  - reflexivity.
  - reflexivity.
  - reflexivity.
  - reflexivity.
Defined.

Lemma parseLine_inline_comment_witness :
  ExportEnv.parseLine "KEY=value # comment" = ("KEY", "value", false, nul).
Proof.
  apply (parseLine_inline_comment "KEY" "value" " " " comment").
  - reflexivity.
  - discriminate.
  - vm_compute. reflexivity.
  - reflexivity.
  - reflexivity.
  - reflexivity.
  - reflexivity.
  - reflexivity.
Defined.

Lemma parseLine_quoted_witness :
  ExportEnv.parseLine ("KEY=" +:+ String dquote (" a # b " +:+ str dquote))
  = ("KEY", " a # b ", false, nul).
Proof.
  apply (parseLine_quoted "KEY" " a # b " dquote).
  - reflexivity.
  - by left.
  - reflexivity.
  - reflexivity.
  - reflexivity.
Defined.

Lemma parseLine_multiline_start_witness :
  ExportEnv.parseLine ("KEY=" +:+ String dquote "L1") = ("KEY", "L1", true, dquote).
Proof.
  apply (parseLine_multiline_start "KEY" "L1" dquote).
  - reflexivity.
  - by left.
  - reflexivity.
  - reflexivity.
  - vm_compute. reflexivity.
  - reflexivity.
Defined.

Lemma parseLines_skips_comments_witness :
  ExportEnv.parseLines (["A=1"] ++ "  # note" :: ["B=2"])
  = ExportEnv.parseLines (["A=1"] ++ ["B=2"]).
Proof.
  apply (parseLines_skips_comments ["A=1"] ["B=2"] "  # note").
  vm_compute. reflexivity.
Defined.

Lemma parseLines_assignment_witness :
  ExportEnv.parseLines (["A=1"] ++ ["A=2"]) = <["A" := "2"]> (ExportEnv.parseLines ["A=1"]).
Proof.
  apply (parseLines_assignment ["A=1"] "A" "2").
  - vm_compute. reflexivity.
  - reflexivity.
  - vm_compute. reflexivity.
  - reflexivity.
  - reflexivity.
  - reflexivity.
Defined.

Lemma parseLines_unclosed_quote_lost_witness :
  ExportEnv.parseLines (["A=1"] ++ ["B=" +:+ String dquote "x"])
  = ExportEnv.parseLines ["A=1"].
Proof.
  apply (parseLines_unclosed_quote_lost ["A=1"] "B" "x" dquote).
  - vm_compute. reflexivity.
  - reflexivity.
  - by left.
  - reflexivity.
  - reflexivity.
  - vm_compute. reflexivity.
Defined.

Lemma parseLines_multiline_value_witness :
  ExportEnv.parseLines
    ([] ++ ("K=" +:+ String dquote "L1") :: ["X=2"] ++ ["L3" +:+ str dquote])
  = <["K" := "L1" +:+ str newline +:+ "X=2" +:+ str newline +:+ "L3"]>
      (ExportEnv.parseLines []).
Proof.
  apply (parseLines_multiline_value [] ["X=2"] "K" "L1" "L3" dquote).
  - reflexivity.
  - reflexivity.
  - by left.
  - repeat constructor; try discriminate; vm_compute; reflexivity.
  - repeat constructor.
  - reflexivity.
Defined.

Lemma main_exports_plain_line_witness :
  ExportEnv.main Fixtures.forwardRange (Fixtures.dotEnv ["KEY=value"]) (λ _ _, false)
    Fixtures.noArgs
  = [Print ("export KEY=" +:+ str dquote +:+ "value" +:+ str dquote)].
Proof.
  apply (main_exports_plain_line Fixtures.forwardRange forwardRange_order
           (Fixtures.dotEnv ["KEY=value"]) (λ _ _, false) Fixtures.noArgs
           ".env" "KEY" "value").
  - reflexivity.
  - reflexivity.
  - reflexivity.
  - reflexivity.
  - reflexivity.
  - vm_compute. reflexivity.
  - reflexivity.
  - reflexivity.
  - reflexivity.
  - reflexivity.
Defined.

Lemma cleanValue_panics_exactly_on_lone_quote_witness :
  Simple.cleanValue (" " +:+ str squote) = None.
Proof.
  apply (cleanValue_panics_exactly_on_lone_quote (" " +:+ str squote)).
  exists squote. split; [vm_compute; reflexivity|]. right. by left.
Defined.

Lemma cleanValue_quoted_witness :
  Simple.cleanValue (String backtick (" a " +:+ str backtick))
  = Some (ReplaceAll
            (ReplaceAll
               (ReplaceAll (TrimSpace " a ")
                  (String backslash (str dquote)) (str dquote))
               (String backslash (str squote)) (str squote))
            (String backslash (str backtick)) (str backtick)).
Proof.
  apply (cleanValue_quoted backtick " a "). right. by right.
Defined.

Lemma simple_main_export_and_eval_witness :
  (Simple.Eval Fixtures.exportArgs = false → Simple.Unset Fixtures.exportArgs = false →
   Simple.main Fixtures.forwardRange (Fixtures.dotEnv ["A=1"]) Fixtures.exportArgs
   ≡ₚ map (λ kv, Print ("export " +:+ kv.1 +:+ "=" +:+ kv.2))
          (map_to_list (<["A" := "1"]> ∅ : EnvMap))) ∧
  (Simple.Eval Fixtures.exportArgs = true →
   ∃ lines, Simple.main Fixtures.forwardRange (Fixtures.dotEnv ["A=1"]) Fixtures.exportArgs
            = Print "Evaluated environment variables:" :: lines ∧
            lines ≡ₚ map (λ kv, Print (kv.1 +:+ "=" +:+ kv.2))
                         (map_to_list (<["A" := "1"]> ∅ : EnvMap))).
Proof.
  apply (simple_main_export_and_eval Fixtures.forwardRange forwardRange_order
           (Fixtures.dotEnv ["A=1"]) Fixtures.exportArgs (<["A" := "1"]> ∅)).
  vm_compute. reflexivity.
Defined.

Lemma simple_line_without_equals_skipped_witness :
  Simple.parseStep (<["A" := "1"]> ∅) "invalid line" = Some (<["A" := "1"]> ∅).
Proof.
  apply (simple_line_without_equals_skipped (<["A" := "1"]> ∅) "invalid line").
  vm_compute. reflexivity.
Defined.

Lemma line_without_equals_binds_empty_key_witness :
  ExportEnv.envVars (ExportEnv.parseStep ExportEnv.initState "invalid line")
  = <[EmptyString := EmptyString]> (ExportEnv.envVars ExportEnv.initState).
Proof.
  apply (line_without_equals_binds_empty_key ExportEnv.initState "invalid line").
  - reflexivity.
  - vm_compute. reflexivity.
  - vm_compute. reflexivity.
Defined.

Lemma parseLines_keys_are_names_witness :
  "A_1" = EmptyString ∨ Lines.isName "A_1" = true.
Proof.
  apply (parseLines_keys_are_names ["A_1 = x"] "A_1").
  exists "x". vm_compute. reflexivity.
Defined.

Lemma simple_inline_comment_witness :
  Simple.parseStep ∅ "KEY=value # inline comment" = Some (<["KEY" := "value"]> ∅).
Proof.
  apply (simple_inline_comment ∅ "KEY" "value" " " " inline comment").
  - reflexivity.
  - discriminate.
  - vm_compute. reflexivity.
  - reflexivity.
  - reflexivity.
  - reflexivity.
  - vm_compute. reflexivity.
Defined.
